(** * Beer baseball rules engine: a shallow embedding of
      [backend/game_engine.py] and of the parts of [backend/models.py]
      it works on, with the properties of the engine proved over it.

    The engine is a Python class holding a SQLAlchemy session and one
    [Game] row.  Its methods mutate the row, the per-player statistics
    rows and the event log in place and signal failure by raising
    [ValueError].  A raised exception does not undo what was written
    before it, so the embedding threads the engine state through a
    state-and-exception monad in which the state survives a failure.

    The routes of [backend/app.py] that put a game before the engine, or
    update its role slots, come after the engine, over a database of
    players and stored games.  Each of them works inside the
    [session_scope] of [backend/database.py], which commits the session
    when the route returns and rolls it back when an exception leaves
    it. *)

From Stdlib Require Import ZArith String List DecimalString.
From stdpp Require Import base option gmap strings list.

Local Open Scope Z_scope.
Local Open Scope string_scope.

(** ** models.py *)

Module HalfInning.
Inductive t := top | bottom.
Definition value (h : t) : string :=
  match h with top => "top" | bottom => "bottom" end.
End HalfInning.

Module GameStatus.
Inductive t := scheduled | in_progress | final.
End GameStatus.

Module EventType.
Inductive t := shot | steal | bunt | knock | rotation | manual_adjustment.
End EventType.

(** A [Player] is used by the engine through its primary key only. *)
Abbreviation Player := Z (only parsing).

(** The [games] row.  The two timestamp columns are left out. *)
Record Game := {
  game_id : Z;
  home_team : string;
  away_team : string;
  inning : Z;
  half : HalfInning.t;
  outs : Z;
  strikes : Z;
  home_score : Z;
  away_score : Z;
  first_base : bool;
  second_base : bool;
  third_base : bool;
  status : GameStatus.t;
  offensive_shooter_id : option Player;
  offensive_drinker_id : option Player;
  defensive_catcher_id : option Player;
  defensive_drinker_id : option Player
}.

(** Attribute assignment [game.x = v], one function per column the
    engine writes. *)
Definition set_inning (v : Z) (g : Game) : Game :=
  {| game_id := game_id g; home_team := home_team g; away_team := away_team g;
     inning := v; half := half g; outs := outs g; strikes := strikes g;
     home_score := home_score g; away_score := away_score g;
     first_base := first_base g; second_base := second_base g;
     third_base := third_base g; status := status g;
     offensive_shooter_id := offensive_shooter_id g;
     offensive_drinker_id := offensive_drinker_id g;
     defensive_catcher_id := defensive_catcher_id g;
     defensive_drinker_id := defensive_drinker_id g |}.

Definition set_half (v : HalfInning.t) (g : Game) : Game :=
  {| game_id := game_id g; home_team := home_team g; away_team := away_team g;
     inning := inning g; half := v; outs := outs g; strikes := strikes g;
     home_score := home_score g; away_score := away_score g;
     first_base := first_base g; second_base := second_base g;
     third_base := third_base g; status := status g;
     offensive_shooter_id := offensive_shooter_id g;
     offensive_drinker_id := offensive_drinker_id g;
     defensive_catcher_id := defensive_catcher_id g;
     defensive_drinker_id := defensive_drinker_id g |}.

Definition set_outs (v : Z) (g : Game) : Game :=
  {| game_id := game_id g; home_team := home_team g; away_team := away_team g;
     inning := inning g; half := half g; outs := v; strikes := strikes g;
     home_score := home_score g; away_score := away_score g;
     first_base := first_base g; second_base := second_base g;
     third_base := third_base g; status := status g;
     offensive_shooter_id := offensive_shooter_id g;
     offensive_drinker_id := offensive_drinker_id g;
     defensive_catcher_id := defensive_catcher_id g;
     defensive_drinker_id := defensive_drinker_id g |}.

Definition set_strikes (v : Z) (g : Game) : Game :=
  {| game_id := game_id g; home_team := home_team g; away_team := away_team g;
     inning := inning g; half := half g; outs := outs g; strikes := v;
     home_score := home_score g; away_score := away_score g;
     first_base := first_base g; second_base := second_base g;
     third_base := third_base g; status := status g;
     offensive_shooter_id := offensive_shooter_id g;
     offensive_drinker_id := offensive_drinker_id g;
     defensive_catcher_id := defensive_catcher_id g;
     defensive_drinker_id := defensive_drinker_id g |}.

Definition set_home_score (v : Z) (g : Game) : Game :=
  {| game_id := game_id g; home_team := home_team g; away_team := away_team g;
     inning := inning g; half := half g; outs := outs g; strikes := strikes g;
     home_score := v; away_score := away_score g; first_base := first_base g;
     second_base := second_base g; third_base := third_base g; status := status g;
     offensive_shooter_id := offensive_shooter_id g;
     offensive_drinker_id := offensive_drinker_id g;
     defensive_catcher_id := defensive_catcher_id g;
     defensive_drinker_id := defensive_drinker_id g |}.

Definition set_away_score (v : Z) (g : Game) : Game :=
  {| game_id := game_id g; home_team := home_team g; away_team := away_team g;
     inning := inning g; half := half g; outs := outs g; strikes := strikes g;
     home_score := home_score g; away_score := v; first_base := first_base g;
     second_base := second_base g; third_base := third_base g; status := status g;
     offensive_shooter_id := offensive_shooter_id g;
     offensive_drinker_id := offensive_drinker_id g;
     defensive_catcher_id := defensive_catcher_id g;
     defensive_drinker_id := defensive_drinker_id g |}.

Definition set_first_base (v : bool) (g : Game) : Game :=
  {| game_id := game_id g; home_team := home_team g; away_team := away_team g;
     inning := inning g; half := half g; outs := outs g; strikes := strikes g;
     home_score := home_score g; away_score := away_score g; first_base := v;
     second_base := second_base g; third_base := third_base g; status := status g;
     offensive_shooter_id := offensive_shooter_id g;
     offensive_drinker_id := offensive_drinker_id g;
     defensive_catcher_id := defensive_catcher_id g;
     defensive_drinker_id := defensive_drinker_id g |}.

Definition set_second_base (v : bool) (g : Game) : Game :=
  {| game_id := game_id g; home_team := home_team g; away_team := away_team g;
     inning := inning g; half := half g; outs := outs g; strikes := strikes g;
     home_score := home_score g; away_score := away_score g;
     first_base := first_base g; second_base := v; third_base := third_base g;
     status := status g; offensive_shooter_id := offensive_shooter_id g;
     offensive_drinker_id := offensive_drinker_id g;
     defensive_catcher_id := defensive_catcher_id g;
     defensive_drinker_id := defensive_drinker_id g |}.

Definition set_third_base (v : bool) (g : Game) : Game :=
  {| game_id := game_id g; home_team := home_team g; away_team := away_team g;
     inning := inning g; half := half g; outs := outs g; strikes := strikes g;
     home_score := home_score g; away_score := away_score g;
     first_base := first_base g; second_base := second_base g; third_base := v;
     status := status g; offensive_shooter_id := offensive_shooter_id g;
     offensive_drinker_id := offensive_drinker_id g;
     defensive_catcher_id := defensive_catcher_id g;
     defensive_drinker_id := defensive_drinker_id g |}.

Definition set_status (v : GameStatus.t) (g : Game) : Game :=
  {| game_id := game_id g; home_team := home_team g; away_team := away_team g;
     inning := inning g; half := half g; outs := outs g; strikes := strikes g;
     home_score := home_score g; away_score := away_score g;
     first_base := first_base g; second_base := second_base g;
     third_base := third_base g; status := v;
     offensive_shooter_id := offensive_shooter_id g;
     offensive_drinker_id := offensive_drinker_id g;
     defensive_catcher_id := defensive_catcher_id g;
     defensive_drinker_id := defensive_drinker_id g |}.

Definition set_offensive_shooter_id (v : option Z) (g : Game) : Game :=
  {| game_id := game_id g; home_team := home_team g; away_team := away_team g;
     inning := inning g; half := half g; outs := outs g; strikes := strikes g;
     home_score := home_score g; away_score := away_score g;
     first_base := first_base g; second_base := second_base g;
     third_base := third_base g; status := status g; offensive_shooter_id := v;
     offensive_drinker_id := offensive_drinker_id g;
     defensive_catcher_id := defensive_catcher_id g;
     defensive_drinker_id := defensive_drinker_id g |}.

Definition set_offensive_drinker_id (v : option Z) (g : Game) : Game :=
  {| game_id := game_id g; home_team := home_team g; away_team := away_team g;
     inning := inning g; half := half g; outs := outs g; strikes := strikes g;
     home_score := home_score g; away_score := away_score g;
     first_base := first_base g; second_base := second_base g;
     third_base := third_base g; status := status g;
     offensive_shooter_id := offensive_shooter_id g; offensive_drinker_id := v;
     defensive_catcher_id := defensive_catcher_id g;
     defensive_drinker_id := defensive_drinker_id g |}.

Definition set_defensive_catcher_id (v : option Z) (g : Game) : Game :=
  {| game_id := game_id g; home_team := home_team g; away_team := away_team g;
     inning := inning g; half := half g; outs := outs g; strikes := strikes g;
     home_score := home_score g; away_score := away_score g;
     first_base := first_base g; second_base := second_base g;
     third_base := third_base g; status := status g;
     offensive_shooter_id := offensive_shooter_id g;
     offensive_drinker_id := offensive_drinker_id g; defensive_catcher_id := v;
     defensive_drinker_id := defensive_drinker_id g |}.

Definition set_defensive_drinker_id (v : option Z) (g : Game) : Game :=
  {| game_id := game_id g; home_team := home_team g; away_team := away_team g;
     inning := inning g; half := half g; outs := outs g; strikes := strikes g;
     home_score := home_score g; away_score := away_score g;
     first_base := first_base g; second_base := second_base g;
     third_base := third_base g; status := status g;
     offensive_shooter_id := offensive_shooter_id g;
     offensive_drinker_id := offensive_drinker_id g;
     defensive_catcher_id := defensive_catcher_id g; defensive_drinker_id := v |}.

(** The four role slots, as the names [_swap_roles] receives. *)
Module Role.
Inductive t :=
  offensive_shooter | offensive_drinker | defensive_catcher | defensive_drinker.
End Role.

(** [getattr(game, f"{role}_id")] and [setattr(game, f"{role}_id", v)]. *)
Definition getattr_id (r : Role.t) (g : Game) : option Player :=
  match r with
  | Role.offensive_shooter => offensive_shooter_id g
  | Role.offensive_drinker => offensive_drinker_id g
  | Role.defensive_catcher => defensive_catcher_id g
  | Role.defensive_drinker => defensive_drinker_id g
  end.

Definition setattr_id (r : Role.t) (v : option Player) (g : Game) : Game :=
  match r with
  | Role.offensive_shooter => set_offensive_shooter_id v g
  | Role.offensive_drinker => set_offensive_drinker_id v g
  | Role.defensive_catcher => set_defensive_catcher_id v g
  | Role.defensive_drinker => set_defensive_drinker_id v g
  end.

(** The counters of a [player_game_stats] row, by column name. *)
Module Col.
Inductive t :=
  | points_for | points_against | shots_taken
  | shots_first | shots_second | shots_third | shots_home | shots_grandslam
  | shots_strike | shots_out
  | steals_success | steals_bonus | steals_fail
  | bunts_success | bunts_bonus | bunts_fail
  | catches_made | catches_missed
  | knocks_first | knocks_second | knocks_third.

Definition eqb (a b : t) : bool :=
  match a, b with
  | points_for, points_for | points_against, points_against
  | shots_taken, shots_taken | shots_first, shots_first
  | shots_second, shots_second | shots_third, shots_third
  | shots_home, shots_home | shots_grandslam, shots_grandslam
  | shots_strike, shots_strike | shots_out, shots_out
  | steals_success, steals_success | steals_bonus, steals_bonus
  | steals_fail, steals_fail | bunts_success, bunts_success
  | bunts_bonus, bunts_bonus | bunts_fail, bunts_fail
  | catches_made, catches_made | catches_missed, catches_missed
  | knocks_first, knocks_first | knocks_second, knocks_second
  | knocks_third, knocks_third => true
  | _, _ => false
  end.

(** The seven per-outcome shot counters and [shots_taken]. *)
Definition is_shot (c : t) : bool :=
  match c with
  | shots_taken | shots_first | shots_second | shots_third | shots_home
  | shots_grandslam | shots_strike | shots_out => true
  | _ => false
  end.

Definition is_knock (c : t) : bool :=
  match c with
  | knocks_first | knocks_second | knocks_third => true
  | _ => false
  end.
End Col.

(** One [player_game_stats] row of the game at hand. *)
Record PlayerGameStats := {
  points_for : Z;
  points_against : Z;
  shots_taken : Z;
  shots_first : Z;
  shots_second : Z;
  shots_third : Z;
  shots_home : Z;
  shots_grandslam : Z;
  shots_strike : Z;
  shots_out : Z;
  steals_success : Z;
  steals_bonus : Z;
  steals_fail : Z;
  bunts_success : Z;
  bunts_bonus : Z;
  bunts_fail : Z;
  catches_made : Z;
  catches_missed : Z;
  knocks_first : Z;
  knocks_second : Z;
  knocks_third : Z
}.

(** [PlayerGameStats(game=game, player=player)]: every counter column is
    declared [default=0]. *)
Definition new_PlayerGameStats : PlayerGameStats :=
  {| points_for := 0; points_against := 0; shots_taken := 0;
     shots_first := 0; shots_second := 0; shots_third := 0; shots_home := 0;
     shots_grandslam := 0; shots_strike := 0; shots_out := 0;
     steals_success := 0; steals_bonus := 0; steals_fail := 0;
     bunts_success := 0; bunts_bonus := 0; bunts_fail := 0;
     catches_made := 0; catches_missed := 0;
     knocks_first := 0; knocks_second := 0; knocks_third := 0 |}.

Definition pick (c c' : Col.t) (v old : Z) : Z :=
  if Col.eqb c c' then v else old.

Definition column (c : Col.t) (r : PlayerGameStats) : Z :=
  match c with
  | Col.points_for => points_for r
  | Col.points_against => points_against r
  | Col.shots_taken => shots_taken r
  | Col.shots_first => shots_first r
  | Col.shots_second => shots_second r
  | Col.shots_third => shots_third r
  | Col.shots_home => shots_home r
  | Col.shots_grandslam => shots_grandslam r
  | Col.shots_strike => shots_strike r
  | Col.shots_out => shots_out r
  | Col.steals_success => steals_success r
  | Col.steals_bonus => steals_bonus r
  | Col.steals_fail => steals_fail r
  | Col.bunts_success => bunts_success r
  | Col.bunts_bonus => bunts_bonus r
  | Col.bunts_fail => bunts_fail r
  | Col.catches_made => catches_made r
  | Col.catches_missed => catches_missed r
  | Col.knocks_first => knocks_first r
  | Col.knocks_second => knocks_second r
  | Col.knocks_third => knocks_third r
  end.

Definition with_column (c : Col.t) (v : Z) (r : PlayerGameStats) : PlayerGameStats :=
  {| points_for := pick c Col.points_for v (points_for r);
     points_against := pick c Col.points_against v (points_against r);
     shots_taken := pick c Col.shots_taken v (shots_taken r);
     shots_first := pick c Col.shots_first v (shots_first r);
     shots_second := pick c Col.shots_second v (shots_second r);
     shots_third := pick c Col.shots_third v (shots_third r);
     shots_home := pick c Col.shots_home v (shots_home r);
     shots_grandslam := pick c Col.shots_grandslam v (shots_grandslam r);
     shots_strike := pick c Col.shots_strike v (shots_strike r);
     shots_out := pick c Col.shots_out v (shots_out r);
     steals_success := pick c Col.steals_success v (steals_success r);
     steals_bonus := pick c Col.steals_bonus v (steals_bonus r);
     steals_fail := pick c Col.steals_fail v (steals_fail r);
     bunts_success := pick c Col.bunts_success v (bunts_success r);
     bunts_bonus := pick c Col.bunts_bonus v (bunts_bonus r);
     bunts_fail := pick c Col.bunts_fail v (bunts_fail r);
     catches_made := pick c Col.catches_made v (catches_made r);
     catches_missed := pick c Col.catches_missed v (catches_missed r);
     knocks_first := pick c Col.knocks_first v (knocks_first r);
     knocks_second := pick c Col.knocks_second v (knocks_second r);
     knocks_third := pick c Col.knocks_third v (knocks_third r) |}.

Definition incr (c : Col.t) (r : PlayerGameStats) : PlayerGameStats :=
  with_column c (column c r + 1) r.

(** An appended [game_events] row (the creation time is left out). *)
Record GameEvent := {
  event_type : EventType.t;
  outcome : string;
  offense_player : option Player;
  defense_player : option Player;
  metadata : option (gmap string Z)
}.

(** ** The persistence session, as the engine uses it

    [players] holds the primary keys of the [players] table, [stats] the
    [player_game_stats] rows of the game at hand under their [player_id]
    (the table is unique on the pair of player and game), and [events]
    the event log in order of creation. *)
Record Session := {
  players : gset Z;
  stats : gmap Z PlayerGameStats;
  events : list GameEvent
}.

(** [GameEngine.__init__]: the engine is a session and a game. *)
Record GameEngine := {
  session : Session;
  game : Game
}.

Definition with_game (f : Game → Game) (e : GameEngine) : GameEngine :=
  {| session := session e; game := f (game e) |}.

Definition with_stats (f : gmap Z PlayerGameStats → gmap Z PlayerGameStats)
    (e : GameEngine) : GameEngine :=
  {| session := {| players := players (session e);
                   stats := f (stats (session e));
                   events := events (session e) |};
     game := game e |}.

Definition add_event (ev : GameEvent) (e : GameEngine) : GameEngine :=
  {| session := {| players := players (session e);
                   stats := stats (session e);
                   events := events (session e) ++ [ev] |};
     game := game e |}.

(** ** Effects: state passing with exceptions that keep the state *)

Inductive Exception := ValueError (msg : string).

Inductive Result (A : Type) :=
  | Ok (a : A)
  | Raise (x : Exception).
Arguments Ok {A} a.
Arguments Raise {A} x.

Definition M (A : Type) : Type := GameEngine → GameEngine * Result A.

#[global] Instance M_ret : MRet M := λ A a e, (e, Ok a).

#[global] Instance M_bind : MBind M := λ A B k m e,
  match m e with
  | (e', Ok a) => k a e'
  | (e', Raise x) => (e', Raise x)
  end.

Definition raise {A : Type} (x : Exception) : M A := λ e, (e, Raise x).

(** Reading [self.game.f]. *)
Definition attr {A : Type} (f : Game → A) : M A := λ e, (e, Ok (f (game e))).

(** An assignment [self.game.f = v], given as the setter applied to [v]. *)
Definition assign (f : Game → Game) : M unit := λ e, (with_game f e, Ok ()).

(** Loading one of the relationships [game.offensive_shooter], ...: the
    player row the foreign key points to, [None] for a null key or a key
    without a row. *)
Definition load (r : Role.t) (e : GameEngine) : option Player :=
  match getattr_id r (game e) with
  | Some i => if decide (i ∈ players (session e)) then Some i else None
  | None => None
  end.

Definition relationship (r : Role.t) : M (option Player) := λ e, (e, Ok (load r e)).

(** [a or b] on optional players: a player object is always truthy. *)
Definition or_else (a b : option Player) : option Player :=
  match a with Some _ => a | None => b end.

(** [for _ in range(n): body].  A count below one runs no iteration. *)
Fixpoint times (n : nat) (body : M unit) : M unit :=
  match n with
  | O => mret ()
  | S n' => body;; times n' body
  end.

Definition for_range (n : Z) (body : M unit) : M unit := times (Z.to_nat n) body.

(** ** game_engine.py *)

Module GameSnapshot.
Record t := {
  id : Z;
  home_team : string;
  away_team : string;
  inning : Z;
  half : string;
  outs : Z;
  strikes : Z;
  home_score : Z;
  away_score : Z;
  bases : gmap string bool;
  roles : gmap string (option Player)
}.
End GameSnapshot.

(** [GameSnapshot.from_game]. *)
Definition from_game (g : Game) : GameSnapshot.t :=
  {| GameSnapshot.id := game_id g;
     GameSnapshot.home_team := home_team g;
     GameSnapshot.away_team := away_team g;
     GameSnapshot.inning := inning g;
     GameSnapshot.half := HalfInning.value (half g);
     GameSnapshot.outs := outs g;
     GameSnapshot.strikes := strikes g;
     GameSnapshot.home_score := home_score g;
     GameSnapshot.away_score := away_score g;
     GameSnapshot.bases := {[ "first" := first_base g;
                              "second" := second_base g;
                              "third" := third_base g ]};
     GameSnapshot.roles := {[ "offensive_shooter" := offensive_shooter_id g;
                              "offensive_drinker" := offensive_drinker_id g;
                              "defensive_catcher" := defensive_catcher_id g;
                              "defensive_drinker" := defensive_drinker_id g ]} |}.

(** The query for the row of [player] in this game, and [session.add] of a
    new row when there is none.  A row is referred to by its key in [stats]:
    two references to the row of one player are the same row. *)
Definition _get_or_create_stats (player : option Player) : M (option Z) :=
  match player with
  | None => mret None
  | Some p => λ e,
      match stats (session e) !! p with
      | Some _ => (e, Ok (Some p))
      | None => (with_stats (insert p new_PlayerGameStats) e, Ok (Some p))
      end
  end.

(** [if row: row.c += 1]. *)
Definition bump (row : option Z) (c : Col.t) : M unit :=
  match row with
  | Some p => λ e, (with_stats (alter (incr c) p) e, Ok ())
  | None => mret ()
  end.

Definition _log_event (event_type : EventType.t) (outcome : string)
    (offense defense : option Player) (metadata : option (gmap string Z)) : M unit :=
  λ e, (add_event {| event_type := event_type; outcome := outcome;
                     offense_player := offense; defense_player := defense;
                     metadata := metadata |} e, Ok ()).

(** [session.flush()] writes pending rows out; it changes nothing the
    engine reads. *)
Definition _refresh_scores : M unit := mret ().

Definition _mark_in_progress : M unit :=
  s ← attr status;
  match s with
  | GameStatus.scheduled => assign (set_status GameStatus.in_progress)
  | _ => mret ()
  end.

(** Past the check both players are known not to be [None]; the check
    hands them on as such. *)
Definition _validate_players (offense defense : option Player) : M (Player * Player) :=
  match offense, defense with
  | Some o, Some d => mret (o, d)
  | _, _ => raise (ValueError "Active players must be assigned before recording events.")
  end.

Definition _swap_roles (role_a role_b : Role.t) : M unit :=
  current_a ← attr (getattr_id role_a);
  current_b ← attr (getattr_id role_b);
  assign (setattr_id role_a current_b);;
  assign (setattr_id role_b current_a).

Definition _score_run (player : Player) (stats : option Z) : M unit :=
  h ← attr half;
  match h with
  | HalfInning.top => v ← attr away_score; assign (set_away_score (v + 1))
  | HalfInning.bottom => v ← attr home_score; assign (set_home_score (v + 1))
  end;;
  bump stats Col.points_for.

Definition _increment_outs : M unit :=
  o ← attr outs;
  assign (set_outs (o + 1));;
  o ← attr outs;
  if (o =? 1)%Z then
    _swap_roles Role.offensive_shooter Role.offensive_drinker;;
    assign (set_strikes 0);;
    _log_event EventType.rotation "swap_offense" None None None
  else if (o >=? 2)%Z then
    _swap_roles Role.defensive_drinker Role.offensive_drinker;;
    _swap_roles Role.offensive_shooter Role.defensive_catcher;;
    assign (set_outs 0);;
    assign (set_strikes 0);;
    h ← attr half;
    assign (set_half (match h with
                      | HalfInning.top => HalfInning.bottom
                      | HalfInning.bottom => HalfInning.top
                      end));;
    h ← attr half;
    match h with
    | HalfInning.top => i ← attr inning; assign (set_inning (i + 1))
    | HalfInning.bottom => mret ()
    end;;
    _log_event EventType.rotation "full_rotation" None None None
  else mret ().

Definition _handle_strike : M unit :=
  s ← attr strikes;
  if (s =? 2)%Z then _increment_outs else assign (set_strikes (s + 1)).

(** [if self.game.b: stmt]. *)
Definition if_base (b : Game → bool) (stmt : M unit) : M unit :=
  occupied ← attr b;
  if (occupied : bool) then stmt else mret ().

(** [if self.game.b: temp = True], giving the value [temp] has afterwards. *)
Definition true_if (b : Game → bool) (temp : bool) : M bool :=
  occupied ← attr b;
  mret (if (occupied : bool) then true else temp).

Definition _apply_shot (outcome : string) (shooter catcher : Player)
    (offense_stats defense_stats : option Z) : M unit :=
  let temp_first := false in
  let temp_second := false in
  let temp_third := false in
  bump offense_stats Col.shots_taken;;
  '(temp_first, temp_second, temp_third) ←
    (if String.eqb outcome "first" then
       let temp_first := true in
       temp_second ← true_if first_base temp_second;
       temp_third ← true_if second_base temp_third;
       if_base third_base (_score_run shooter offense_stats);;
       bump offense_stats Col.shots_first;;
       assign (set_strikes 0);;
       mret (temp_first, temp_second, temp_third)
     else if String.eqb outcome "second" then
       let temp_second := true in
       temp_third ← true_if first_base temp_third;
       if_base second_base (_score_run shooter offense_stats);;
       if_base third_base (_score_run shooter offense_stats);;
       bump offense_stats Col.shots_second;;
       assign (set_strikes 0);;
       mret (temp_first, temp_second, temp_third)
     else if String.eqb outcome "third" then
       let temp_third := true in
       if_base first_base (_score_run shooter offense_stats);;
       if_base second_base (_score_run shooter offense_stats);;
       if_base third_base (_score_run shooter offense_stats);;
       bump offense_stats Col.shots_third;;
       assign (set_strikes 0);;
       mret (temp_first, temp_second, temp_third)
     else if String.eqb outcome "home" then
       _score_run shooter offense_stats;;
       if_base first_base (_score_run shooter offense_stats);;
       if_base second_base (_score_run shooter offense_stats);;
       if_base third_base (_score_run shooter offense_stats);;
       bump offense_stats Col.shots_home;;
       let temp_first := false in
       let temp_second := false in
       let temp_third := false in
       assign (set_strikes 0);;
       mret (temp_first, temp_second, temp_third)
     else if String.eqb outcome "grandslam" then
       times 4 (_score_run shooter offense_stats);;
       bump offense_stats Col.shots_grandslam;;
       let temp_first := false in
       let temp_second := false in
       let temp_third := false in
       assign (set_strikes 0);;
       mret (temp_first, temp_second, temp_third)
     else if String.eqb outcome "strike" then
       bump offense_stats Col.shots_strike;;
       bump defense_stats Col.catches_missed;;
       _handle_strike;;
       temp_first ← attr first_base;
       temp_second ← attr second_base;
       temp_third ← attr third_base;
       mret (temp_first, temp_second, temp_third)
     else if String.eqb outcome "out" then
       bump offense_stats Col.shots_out;;
       bump defense_stats Col.catches_made;;
       temp_first ← attr first_base;
       temp_second ← attr second_base;
       temp_third ← attr third_base;
       _increment_outs;;
       mret (temp_first, temp_second, temp_third)
     else raise (ValueError ("Unknown shot outcome: " ++ outcome)));
  assign (set_first_base temp_first);;
  assign (set_second_base temp_second);;
  assign (set_third_base temp_third);;
  _refresh_scores.

Definition _apply_steal (outcome : string) (offense defense : Player)
    (offense_stats defense_stats : option Z) : M unit :=
  let temp_first := false in
  let temp_second := false in
  let temp_third := false in
  '(temp_first, temp_second, temp_third) ←
    (if String.eqb outcome "success" then
       bump offense_stats Col.steals_success;;
       bump defense_stats Col.catches_missed;;
       temp_second ← true_if first_base temp_second;
       temp_third ← true_if second_base temp_third;
       if_base third_base (_score_run offense offense_stats);;
       mret (temp_first, temp_second, temp_third)
     else if String.eqb outcome "bonus" then
       bump offense_stats Col.steals_bonus;;
       bump defense_stats Col.catches_missed;;
       temp_third ← true_if first_base temp_third;
       if_base second_base (_score_run offense offense_stats);;
       if_base third_base (_score_run offense offense_stats);;
       mret (temp_first, temp_second, temp_third)
     else if String.eqb outcome "fail" then
       bump offense_stats Col.steals_fail;;
       bump defense_stats Col.catches_made;;
       _increment_outs;;
       mret (temp_first, temp_second, temp_third)
     else raise (ValueError ("Unknown steal outcome: " ++ outcome)));
  assign (set_first_base temp_first);;
  assign (set_second_base temp_second);;
  assign (set_third_base temp_third);;
  _refresh_scores.

Definition _apply_bunt (outcome : string) (offense defense : Player)
    (offense_stats defense_stats : option Z) : M unit :=
  let temp_first := false in
  let temp_second := false in
  let temp_third := false in
  '(temp_first, temp_second, temp_third) ←
    (if String.eqb outcome "success" then
       bump offense_stats Col.bunts_success;;
       bump defense_stats Col.catches_missed;;
       let temp_first := true in
       temp_second ← true_if first_base temp_second;
       temp_third ← true_if second_base temp_third;
       if_base third_base (_score_run offense offense_stats);;
       assign (set_strikes 0);;
       mret (temp_first, temp_second, temp_third)
     else if String.eqb outcome "bonus" then
       bump offense_stats Col.bunts_bonus;;
       bump defense_stats Col.catches_missed;;
       let temp_second := true in
       temp_third ← true_if first_base temp_third;
       if_base second_base (_score_run offense offense_stats);;
       if_base third_base (_score_run offense offense_stats);;
       assign (set_strikes 0);;
       mret (temp_first, temp_second, temp_third)
     else if String.eqb outcome "fail" then
       bump offense_stats Col.bunts_fail;;
       bump defense_stats Col.catches_made;;
       _increment_outs;;
       mret (temp_first, temp_second, temp_third)
     else raise (ValueError ("Unknown bunt outcome: " ++ outcome)));
  assign (set_first_base temp_first);;
  assign (set_second_base temp_second);;
  assign (set_third_base temp_third);;
  _refresh_scores.

Definition _handle_knock_cycle (base : string) (shooter : Player)
    (offense_stats : option Z) : M unit :=
  let temp_first := false in
  let temp_second := false in
  let temp_third := false in
  '(temp_first, temp_second, temp_third) ←
    (if String.eqb base "first" then
       let temp_first := true in
       temp_second ← true_if first_base temp_second;
       temp_third ← true_if second_base temp_third;
       if_base third_base (_score_run shooter offense_stats);;
       mret (temp_first, temp_second, temp_third)
     else if String.eqb base "second" then
       let temp_second := true in
       temp_third ← true_if first_base temp_third;
       if_base second_base (_score_run shooter offense_stats);;
       if_base third_base (_score_run shooter offense_stats);;
       mret (temp_first, temp_second, temp_third)
     else if String.eqb base "third" then
       let temp_third := true in
       if_base first_base (_score_run shooter offense_stats);;
       if_base second_base (_score_run shooter offense_stats);;
       if_base third_base (_score_run shooter offense_stats);;
       mret (temp_first, temp_second, temp_third)
     else raise (ValueError ("Unknown base: " ++ base)));
  assign (set_first_base temp_first);;
  assign (set_second_base temp_second);;
  assign (set_third_base temp_third);;
  _refresh_scores.

Definition _apply_knock (first second third : Z) (shooter catcher : Player)
    (offense_stats defense_stats : option Z) : M unit :=
  for_range first
    (bump defense_stats Col.knocks_first;;
     _handle_knock_cycle "first" shooter offense_stats);;
  for_range second
    (bump defense_stats Col.knocks_second;;
     _handle_knock_cycle "second" shooter offense_stats);;
  for_range third
    (bump defense_stats Col.knocks_third;;
     _handle_knock_cycle "third" shooter offense_stats).

(** *** Public API *)

Definition record_shot (outcome : string) (shooter catcher : option Player)
    : M GameSnapshot.t :=
  _mark_in_progress;;
  slot ← relationship Role.offensive_shooter;
  let shooter := or_else shooter slot in
  slot ← relationship Role.defensive_catcher;
  let catcher := or_else catcher slot in
  '(shooter, catcher) ← _validate_players shooter catcher;
  offense_stats ← _get_or_create_stats (Some shooter);
  defense_stats ← _get_or_create_stats (Some catcher);
  _apply_shot outcome shooter catcher offense_stats defense_stats;;
  _log_event EventType.shot outcome (Some shooter) (Some catcher) None;;
  g ← attr id;
  mret (from_game g).

Definition record_steal (outcome : string) (offense defense : option Player)
    : M GameSnapshot.t :=
  _mark_in_progress;;
  slot ← relationship Role.offensive_drinker;
  let offense := or_else offense slot in
  slot ← relationship Role.defensive_drinker;
  let defense := or_else defense slot in
  '(offense, defense) ← _validate_players offense defense;
  offense_stats ← _get_or_create_stats (Some offense);
  defense_stats ← _get_or_create_stats (Some defense);
  _apply_steal outcome offense defense offense_stats defense_stats;;
  _log_event EventType.steal outcome (Some offense) (Some defense) None;;
  g ← attr id;
  mret (from_game g).

Definition record_bunt (outcome : string) (offense defense : option Player)
    : M GameSnapshot.t :=
  _mark_in_progress;;
  slot ← relationship Role.offensive_drinker;
  let offense := or_else offense slot in
  slot ← relationship Role.defensive_drinker;
  let defense := or_else defense slot in
  '(offense, defense) ← _validate_players offense defense;
  offense_stats ← _get_or_create_stats (Some offense);
  defense_stats ← _get_or_create_stats (Some defense);
  _apply_bunt outcome offense defense offense_stats defense_stats;;
  _log_event EventType.bunt outcome (Some offense) (Some defense) None;;
  g ← attr id;
  mret (from_game g).

Definition record_knock (first second third : Z) : M GameSnapshot.t :=
  _mark_in_progress;;
  catcher ← relationship Role.defensive_catcher;
  shooter ← relationship Role.offensive_shooter;
  '(shooter, catcher) ← _validate_players shooter catcher;
  offense_stats ← _get_or_create_stats (Some shooter);
  defense_stats ← _get_or_create_stats (Some catcher);
  _apply_knock first second third shooter catcher offense_stats defense_stats;;
  let metadata : gmap string Z :=
    {[ "first" := first; "second" := second; "third" := third ]} in
  _log_event EventType.knock "update" (Some shooter) (Some catcher) (Some metadata);;
  g ← attr id;
  mret (from_game g).

Definition export_snapshot : M GameSnapshot.t :=
  g ← attr id;
  mret (from_game g).

(** ** Sequences of engine operations *)

Inductive Operation :=
  | RecordShot (outcome : string) (shooter catcher : option Player)
  | RecordSteal (outcome : string) (offense defense : option Player)
  | RecordBunt (outcome : string) (offense defense : option Player)
  | RecordKnock (first second third : Z)
  | ExportSnapshot.

Definition perform (op : Operation) : M GameSnapshot.t :=
  match op with
  | RecordShot outcome shooter catcher => record_shot outcome shooter catcher
  | RecordSteal outcome offense defense => record_steal outcome offense defense
  | RecordBunt outcome offense defense => record_bunt outcome offense defense
  | RecordKnock first second third => record_knock first second third
  | ExportSnapshot => export_snapshot
  end.

(** The engine states seen after each operation of a sequence.  A failed
    operation leaves behind whatever it wrote before raising. *)
Fixpoint observed (ops : list Operation) (e : GameEngine) : list GameEngine :=
  match ops with
  | [] => []
  | op :: ops' => let e' := (perform op e).1 in e' :: observed ops' e'
  end.

(** ** app.py *)

(** What the routes find in the database: the [players] rows, by their
    ids, and the games.  A game is stored under its primary key together
    with the rows that hang on it through its [stats] and [events]
    relationships. *)
Record StoredGame := {
  game_row : Game;
  stats_rows : gmap Z PlayerGameStats;
  event_rows : list GameEvent
}.

Record Database := {
  player_table : gset Z;
  game_table : gmap Z StoredGame
}.

Module App.

(** The JSON bodies the routes answer with. *)
Inductive Body :=
  | error (msg : string)
  | errors (fields : gmap string string)
  | game_dump (g : Game)
  | snapshot_dump (s : GameSnapshot.t)
  | next_id (n : Z)
  | not_json.

Record Response := {
  status_code : Z;
  json : Body
}.

(** [return jsonify(body)] answers 200, [return jsonify(body), code] answers
    [code]. *)
Definition jsonify (b : Body) : Response := {| status_code := 200; json := b |}.

Definition jsonify_with (b : Body) (code : Z) : Response :=
  {| status_code := code; json := b |}.

(** What is answered when an exception leaves a route; [session_scope] has
    rolled the session back by then. *)
Definition internal_server_error : Response :=
  {| status_code := 500; json := not_json |}.

(** The request bodies, with the fields the routes read typed as a client
    of the API sends them: an outcome is a string, an id an integer, and
    either may be left out or null; the counts of a knock are integers, 0
    when left out. *)
Record ShotPayload := {
  shot_outcome : option string;
  shooter_id : option Z;
  catcher_id : option Z
}.

Record PlayPayload := {
  play_outcome : option string;
  offense_id : option Z;
  defense_id : option Z
}.

Record KnockPayload := {
  first : Z;
  second : Z;
  third : Z
}.

(** The body of a roles update: the items of the JSON object, in order. *)
Definition RolesPayload : Type := list (string * option Z).

(** [payload.get("outcome")] when it passes [if not outcome]: a string that
    is not empty. *)
Definition truthy (outcome : option string) : option string :=
  match outcome with
  | Some s => if String.eqb s "" then None else Some s
  | None => None
  end.

(** What a lookup helper hands back: the row, or the [LookupError] it
    raises. *)
Inductive Loaded (A : Type) :=
  | Found (a : A)
  | LookupError (msg : string).
Arguments Found {A} a.
Arguments LookupError {A} msg.

Definition _load_game (db : Database) (game_id : Z) : Loaded StoredGame :=
  match game_table db !! game_id with
  | Some game => Found game
  | None => LookupError "Game not found"
  end.

Definition _load_player (db : Database) (player_id : option Z)
    : Loaded (option Player) :=
  match player_id with
  | None => Found None
  | Some i =>
      if decide (i ∈ player_table db) then Found (Some i)
      else LookupError ("Player " +:+ NilZero.string_of_int (Z.to_int i)
                          +:+ " not found")
  end.

(** [GameEngine(session, game)] on the session of the request. *)
Definition engine_on (db : Database) (stored : StoredGame) : GameEngine :=
  {| session := {| players := player_table db;
                   stats := stats_rows stored;
                   events := event_rows stored |};
     game := game_row stored |}.

(** The game and its rows as the engine holds them. *)
Definition rows_of (e : GameEngine) : StoredGame :=
  {| game_row := game e;
     stats_rows := stats (session e);
     event_rows := events (session e) |}.

(** [session.commit()] on the way out of [session_scope], which is left by
    a [return] on every path of a route that caught what was raised: the
    game the request worked on is stored as the request left it, rows and log
    included.  Where a route answers before it has written anything, the
    commit stores nothing and the database is handed back as it is. *)
Definition commit (game_id : Z) (stored : StoredGame) (db : Database) : Database :=
  {| player_table := player_table db;
     game_table := <[game_id := stored]> (game_table db) |}.

(** The end of a recording route: the two [except] clauses and the final
    [return], each leaving the [with] block by a [return], so that the
    session is committed whichever way the engine call ended. *)
Definition respond (game_id : Z) (db : Database)
    (run : GameEngine * Result GameSnapshot.t) : Database * Response :=
  match run with
  | (e, Ok snapshot) =>
      (commit game_id (rows_of e) db, jsonify (snapshot_dump snapshot))
  | (e, Raise (ValueError msg)) =>
      (commit game_id (rows_of e) db, jsonify_with (error msg) 400)
  end.

(** [GET /api/games/next-id].  [func.max(Game.id)] is [None] on an empty
    table; [last_id or 0] is 0 then, and [last_id] otherwise. *)
Definition last_id (db : Database) : option Z :=
  foldr (λ k acc, Some (from_option (Z.max k) k acc)) None
        (elements (dom (game_table db))).

Definition next_game_id (db : Database) : Database * Response :=
  (db, jsonify (next_id (default 0 (last_id db) + 1))).

(** [GET /api/games/<id>]. *)
Definition get_game (game_id : Z) (db : Database) : Database * Response :=
  match _load_game db game_id with
  | LookupError msg => (db, jsonify_with (error msg) 404)
  | Found game => (db, jsonify (game_dump (game_row game)))
  end.

(** [PATCH /api/games/<id>/roles]. *)
Definition allowed : gset string :=
  {[ "offensive_shooter_id"; "offensive_drinker_id";
     "defensive_catcher_id"; "defensive_drinker_id" ]}.

(** [setattr(game, field, value)] for the name of a role column; any other
    name is no column of the row. *)
Definition setattr (field : string) (value : option Z) (g : Game) : Game :=
  if String.eqb field "offensive_shooter_id" then set_offensive_shooter_id value g
  else if String.eqb field "offensive_drinker_id" then set_offensive_drinker_id value g
  else if String.eqb field "defensive_catcher_id" then set_defensive_catcher_id value g
  else if String.eqb field "defensive_drinker_id" then set_defensive_drinker_id value g
  else g.

(** The loop over the items: the game as the loop leaves it, and the
    [LookupError] that ended it if one did. *)
Fixpoint assign_items (db : Database) (items : RolesPayload) (g : Game)
    : Game * Loaded unit :=
  match items with
  | [] => (g, Found ())
  | (field, value) :: rest =>
      match _load_player db value with
      | LookupError msg => (g, LookupError msg)
      | Found _ => assign_items db rest (setattr field value g)
      end
  end.

Definition update_roles (game_id : Z) (payload : RolesPayload) (db : Database)
    : Database * Response :=
  let unknown := list_to_set payload.*1 ∖ allowed in
  if decide (unknown = ∅) then
    match _load_game db game_id with
    | LookupError msg => (db, jsonify_with (error msg) 404)
    | Found stored =>
        let written (g : Game) : StoredGame :=
          {| game_row := g;
             stats_rows := stats_rows stored;
             event_rows := event_rows stored |} in
        match assign_items db payload (game_row stored) with
        | (g, LookupError msg) =>
            (commit game_id (written g) db, jsonify_with (error msg) 404)
        | (g, Found _) =>
            (commit game_id (written g) db, jsonify (game_dump g))
        end
    end
  else (db, jsonify_with (errors (gset_to_gmap "Unknown field" unknown)) 400).

(** [POST /api/games/<id>/events/shot]. *)
Definition record_shot (game_id : Z) (payload : ShotPayload) (db : Database)
    : Database * Response :=
  match truthy (shot_outcome payload) with
  | None => (db, jsonify_with (error "Outcome is required") 400)
  | Some outcome =>
    match _load_game db game_id with
    | LookupError msg => (db, jsonify_with (error msg) 404)
    | Found stored =>
        let e := engine_on db stored in
        match _load_player db (shooter_id payload) with
        | LookupError msg => (db, jsonify_with (error msg) 404)
        | Found given =>
            let shooter := or_else given (load Role.offensive_shooter e) in
            match _load_player db (catcher_id payload) with
            | LookupError msg => (db, jsonify_with (error msg) 404)
            | Found given =>
                let catcher := or_else given (load Role.defensive_catcher e) in
                respond game_id db
                  (record_shot outcome shooter catcher e)
            end
        end
    end
  end.

(** [POST /api/games/<id>/events/steal]. *)
Definition record_steal (game_id : Z) (payload : PlayPayload) (db : Database)
    : Database * Response :=
  match truthy (play_outcome payload) with
  | None => (db, jsonify_with (error "Outcome is required") 400)
  | Some outcome =>
    match _load_game db game_id with
    | LookupError msg => (db, jsonify_with (error msg) 404)
    | Found stored =>
        let e := engine_on db stored in
        match _load_player db (offense_id payload) with
        | LookupError msg => (db, jsonify_with (error msg) 404)
        | Found given =>
            let offense := or_else given (load Role.offensive_drinker e) in
            match _load_player db (defense_id payload) with
            | LookupError msg => (db, jsonify_with (error msg) 404)
            | Found given =>
                let defense := or_else given (load Role.defensive_drinker e) in
                respond game_id db
                  (record_steal outcome offense defense e)
            end
        end
    end
  end.

(** [POST /api/games/<id>/events/bunt]. *)
Definition record_bunt (game_id : Z) (payload : PlayPayload) (db : Database)
    : Database * Response :=
  match truthy (play_outcome payload) with
  | None => (db, jsonify_with (error "Outcome is required") 400)
  | Some outcome =>
    match _load_game db game_id with
    | LookupError msg => (db, jsonify_with (error msg) 404)
    | Found stored =>
        let e := engine_on db stored in
        match _load_player db (offense_id payload) with
        | LookupError msg => (db, jsonify_with (error msg) 404)
        | Found given =>
            let offense := or_else given (load Role.offensive_drinker e) in
            match _load_player db (defense_id payload) with
            | LookupError msg => (db, jsonify_with (error msg) 404)
            | Found given =>
                let defense := or_else given (load Role.defensive_drinker e) in
                respond game_id db
                  (record_bunt outcome offense defense e)
            end
        end
    end
  end.

(** [POST /api/games/<id>/events/knock]. *)
Definition record_knock (game_id : Z) (payload : KnockPayload) (db : Database)
    : Database * Response :=
  match _load_game db game_id with
  | LookupError msg => (db, jsonify_with (error msg) 404)
  | Found stored =>
      respond game_id db
        (record_knock (first payload) (second payload) (third payload)
           (engine_on db stored))
  end.

(** [GET /api/games/<id>/snapshot]. *)
Definition snapshot (game_id : Z) (db : Database) : Database * Response :=
  match _load_game db game_id with
  | LookupError msg => (db, jsonify_with (error msg) 404)
  | Found stored =>
      match export_snapshot (engine_on db stored) with
      | (e, Ok snapshot) =>
          (commit game_id (rows_of e) db, jsonify (snapshot_dump snapshot))
      | (_, Raise _) => (db, internal_server_error)
      end
  end.

(** The requests served, and the route each goes to. *)
Inductive Request :=
  | GetNextId
  | GetGame (game_id : Z)
  | PatchRoles (game_id : Z) (payload : RolesPayload)
  | PostShot (game_id : Z) (payload : ShotPayload)
  | PostSteal (game_id : Z) (payload : PlayPayload)
  | PostBunt (game_id : Z) (payload : PlayPayload)
  | PostKnock (game_id : Z) (payload : KnockPayload)
  | GetSnapshot (game_id : Z).

Definition serve (r : Request) (db : Database) : Database * Response :=
  match r with
  | GetNextId => next_game_id db
  | GetGame game_id => get_game game_id db
  | PatchRoles game_id payload => update_roles game_id payload db
  | PostShot game_id payload => record_shot game_id payload db
  | PostSteal game_id payload => record_steal game_id payload db
  | PostBunt game_id payload => record_bunt game_id payload db
  | PostKnock game_id payload => record_knock game_id payload db
  | GetSnapshot game_id => snapshot game_id db
  end.

End App.

(** ** Vocabulary of the statements *)

(** The player an operation works with for role [r]: the override when
    one is given, the occupant of the role slot otherwise. *)
Definition participant (override : option Player) (r : Role.t) (e : GameEngine)
    : option Player :=
  or_else override (load r e).

(** Counter [c] of player [p] in this game; a player without a row yet has
    every counter at its default. *)
Definition row_counter (m : gmap Z PlayerGameStats) (p : Player) (c : Col.t) : Z :=
  from_option (column c) 0 (m !! p).

Definition counter (e : GameEngine) (p : Player) (c : Col.t) : Z :=
  row_counter (stats (session e)) p c.

(** The score of the side at bat, and of the other side. *)
Definition batting_score (h : HalfInning.t) (g : Game) : Z :=
  match h with HalfInning.top => away_score g | HalfInning.bottom => home_score g end.

Definition fielding_score (h : HalfInning.t) (g : Game) : Z :=
  match h with HalfInning.top => home_score g | HalfInning.bottom => away_score g end.

Definition other_half (h : HalfInning.t) : HalfInning.t :=
  match h with HalfInning.top => HalfInning.bottom | HalfInning.bottom => HalfInning.top end.

Definition MissingParticipant : Exception :=
  ValueError "Active players must be assigned before recording events.".

Definition UnknownOutcome (kind outcome : string) : Exception :=
  ValueError ("Unknown " ++ kind ++ " outcome: " ++ outcome).

Definition shot_outcomes : list string :=
  ["first"; "second"; "third"; "home"; "grandslam"; "strike"; "out"].

Definition play_outcomes : list string := ["success"; "bonus"; "fail"].

Definition rotation_event (outcome : string) : GameEvent :=
  {| event_type := EventType.rotation; outcome := outcome;
     offense_player := None; defense_player := None; metadata := None |}.

(** The store after [_get_or_create_stats] for player [p]. *)
Definition ensure_row (p : Player) (m : gmap Z PlayerGameStats)
    : gmap Z PlayerGameStats :=
  match m !! p with
  | Some _ => m
  | None => <[p := new_PlayerGameStats]> m
  end.

(** The log record a recording operation appends for itself. *)
Definition play_event (t : EventType.t) (outcome : string) (o d : Player)
    : GameEvent :=
  {| event_type := t; outcome := outcome;
     offense_player := Some o; defense_player := Some d; metadata := None |}.

(** The three base flags set to [False]. *)
Definition clear_bases (g : Game) : Game :=
  set_third_base false (set_second_base false (set_first_base false g)).

(** The engine as [_mark_in_progress] leaves it, and as it stands once the
    statistics rows of the two participants have been fetched. *)
Definition started (e : GameEngine) : GameEngine := (_mark_in_progress e).1.

Definition prepared (o d : Player) (e : GameEngine) : GameEngine :=
  with_stats (ensure_row d) (with_stats (ensure_row o) (started e)).


(** *** Knocks as a sequence of units *)

Definition knock_base (base : string) : Prop :=
  base = "first" ∨ base = "second" ∨ base = "third".

(** The catcher's counter a unit on [base] adds to. *)
Definition knock_column (base : string) : Col.t :=
  if String.eqb base "first" then Col.knocks_first
  else if String.eqb base "second" then Col.knocks_second
  else Col.knocks_third.

(** One unit, as the body of the loops of [_apply_knock] runs it for the
    shooter [sh] and the catcher [ca]. *)
Definition knock_unit (base : string) (sh ca : Player) : M unit :=
  bump (Some ca) (knock_column base);;
  _handle_knock_cycle base sh (Some sh).

(** The units of a knock in the order the description gives them: all
    first-units, then all second-units, then all third-units. *)
Definition knock_units (first second third : Z) : list string :=
  replicate (Z.to_nat first) "first" ++
  replicate (Z.to_nat second) "second" ++
  replicate (Z.to_nat third) "third".

(** Units run one after the other, each on the state the one before it
    left. *)
Fixpoint run_units (units : list string) (sh ca : Player) : M unit :=
  match units with
  | [] => mret ()
  | base :: rest => knock_unit base sh ca;; run_units rest sh ca
  end.

(** How many of [units] add to column [c]. *)
Fixpoint knocks_on (c : Col.t) (units : list string) : Z :=
  match units with
  | [] => 0
  | base :: rest => (if Col.eqb (knock_column base) c then 1 else 0) + knocks_on c rest
  end.

Definition rows_present (sh ca : Player) (e : GameEngine) : Prop :=
  is_Some (stats (session e) !! sh) ∧ is_Some (stats (session e) !! ca).

Definition total_score (g : Game) : Z := home_score g + away_score g.

(** The base flags and scores of two games agree. *)
Definition same_play (g1 g2 : Game) : Prop :=
  first_base g1 = first_base g2 ∧
  second_base g1 = second_base g2 ∧
  third_base g1 = third_base g2 ∧
  home_score g1 = home_score g2 ∧
  away_score g1 = away_score g2.

(** The log record of a knock. *)
Definition knock_event (first second third : Z) (sh ca : Player) : GameEvent :=
  {| event_type := EventType.knock; outcome := "update";
     offense_player := Some sh; defense_player := Some ca;
     metadata := Some {[ "first" := first; "second" := second; "third" := third ]} |}.

(** A required participant of the operation is missing: no override is
    given and the role slot holds no player. *)
Definition lacks_participant (op : Operation) (e : GameEngine) : Prop :=
  match op with
  | RecordShot _ o d =>
      participant o Role.offensive_shooter e = None ∨
      participant d Role.defensive_catcher e = None
  | RecordSteal _ o d | RecordBunt _ o d =>
      participant o Role.offensive_drinker e = None ∨
      participant d Role.defensive_drinker e = None
  | RecordKnock _ _ _ =>
      load Role.offensive_shooter e = None ∨
      load Role.defensive_catcher e = None
  | ExportSnapshot => False
  end.

(** *** Two games to run the engine on *)

(** A freshly created game with players 1 to 4 in the four role slots. *)
Definition sandlot_game : Game :=
  {| game_id := 1; home_team := "Home"; away_team := "Away";
     inning := 1; half := HalfInning.top; outs := 0; strikes := 0;
     home_score := 0; away_score := 0;
     first_base := false; second_base := false; third_base := false;
     status := GameStatus.scheduled;
     offensive_shooter_id := Some 1; offensive_drinker_id := Some 2;
     defensive_catcher_id := Some 3; defensive_drinker_id := Some 4 |}.

Definition sandlot : GameEngine :=
  {| session := {| players := {[ 1; 2; 3; 4 ]}; stats := ∅; events := [] |};
     game := sandlot_game |}.

(** The same game created without any role assigned. *)
Definition unassigned : GameEngine :=
  {| session := {| players := {[ 1; 2; 3; 4 ]}; stats := ∅; events := [] |};
     game := set_offensive_shooter_id None
               (set_offensive_drinker_id None
                  (set_defensive_catcher_id None
                     (set_defensive_drinker_id None sandlot_game))) |}.

(** The value [outs] has after one pass of the out sub-rule. *)
Definition next_outs (o : Z) : Z :=
  if (o + 1 =? 1)%Z then 1 else if (o + 1 >=? 2)%Z then 0 else o + 1.

(** [m] keeps a property [P] of the stored [outs], whether it returns or
    raises. *)
Definition keeps_outs (P : Z → Prop) {A : Type} (m : M A) : Prop :=
  ∀ e, P (outs (game e)) → P (outs (game (m e).1)).

(** ** Relations between the engine before and after a run *)

(** Every state [m] can end in, returning or raising, is related by [R] to
    the state it started from. *)
Definition steps (R : GameEngine → GameEngine → Prop) {A : Type} (m : M A) : Prop :=
  ∀ e, R e (m e).1.

(** A reflexive and transitive relation that each building block of the
    recording operations respects. *)
Record respected (R : GameEngine → GameEngine → Prop) : Prop := {
  rel_refl : ∀ e, R e e;
  rel_trans : ∀ a b c, R a b → R b c → R a c;
  rel_mark : steps R _mark_in_progress;
  rel_create : ∀ p, steps R (_get_or_create_stats p);
  rel_bump : ∀ row c, steps R (bump row c);
  rel_log : ∀ t o a b md, steps R (_log_event t o a b md);
  rel_score_run : ∀ p row, steps R (_score_run p row);
  rel_increment_outs : steps R _increment_outs;
  rel_handle_strike : steps R _handle_strike;
  rel_strikes : steps R (assign (set_strikes 0));
  rel_first_base : ∀ v, steps R (assign (set_first_base v));
  rel_second_base : ∀ v, steps R (assign (set_second_base v));
  rel_third_base : ∀ v, steps R (assign (set_third_base v))
}.

Definition scores_grow (e e' : GameEngine) : Prop :=
  home_score (game e) <= home_score (game e') ∧
  away_score (game e) <= away_score (game e').

Definition counters_grow (e e' : GameEngine) : Prop :=
  ∀ p c, counter e p c <= counter e' p c.

Definition log_grows (e e' : GameEngine) : Prop :=
  events (session e) `prefix_of` events (session e').

(** The occupants of the four role slots. *)
Definition role_ids (g : Game) : list (option Player) :=
  [offensive_shooter_id g; offensive_drinker_id g;
   defensive_catcher_id g; defensive_drinker_id g].

Definition roles_kept (e e' : GameEngine) : Prop :=
  role_ids (game e) ≡ₚ role_ids (game e') ∧
  players (session e') = players (session e).

Definition strikes_kept (e e' : GameEngine) : Prop :=
  0 <= strikes (game e) <= 2 → 0 <= strikes (game e') <= 2.

(** The identity of the game stays, the inning does not go back, and the
    status is left alone but for the step from [scheduled] to
    [in_progress]. *)
Definition game_kept (e e' : GameEngine) : Prop :=
  game_id (game e') = game_id (game e) ∧
  home_team (game e') = home_team (game e) ∧
  away_team (game e') = away_team (game e) ∧
  inning (game e) <= inning (game e') ∧
  (status (game e') = status (game e) ∨
   (status (game e) = GameStatus.scheduled ∧
    status (game e') = GameStatus.in_progress)).

(** An operation that records an event. *)
Definition records (op : Operation) : Prop :=
  match op with ExportSnapshot => False | _ => True end.

(** ** Plays *)

Definition bases (g : Game) : bool * bool * bool :=
  (first_base g, second_base g, third_base g).

(** The number of occupied bases. *)
Definition runners (g : Game) : Z :=
  Z.b2z (first_base g) + Z.b2z (second_base g) + Z.b2z (third_base g).

Definition hits : list string := ["first"; "second"; "third"; "home"].

(** Where a hit leaves the bases, and the runs it brings in, from the bases
    it found: the batter takes the base named, the runners ahead of it are
    forced on, and whoever is pushed past third scores. *)
Definition hit_table (outcome : string) (b : bool * bool * bool)
    : (bool * bool * bool) * Z :=
  let '(f, s, t) := b in
  if String.eqb outcome "first" then ((true, f, s), Z.b2z t)
  else if String.eqb outcome "second" then ((false, true, f), Z.b2z s + Z.b2z t)
  else if String.eqb outcome "third"
  then ((false, false, true), Z.b2z f + Z.b2z s + Z.b2z t)
  else ((false, false, false), 1 + Z.b2z f + Z.b2z s + Z.b2z t).

Definition steals : list string := ["success"; "bonus"].

(** The same for a steal, which puts no batter on base: one base each on
    [success], two on [bonus]. *)
Definition steal_table (outcome : string) (b : bool * bool * bool)
    : (bool * bool * bool) * Z :=
  let '(f, s, t) := b in
  if String.eqb outcome "success" then ((false, f, s), Z.b2z t)
  else ((false, false, f), Z.b2z s + Z.b2z t).


(** The players an operation works with. *)
Definition offense_of (op : Operation) (e : GameEngine) : option Player :=
  match op with
  | RecordShot _ o _ => participant o Role.offensive_shooter e
  | RecordSteal _ o _ | RecordBunt _ o _ => participant o Role.offensive_drinker e
  | RecordKnock _ _ _ => load Role.offensive_shooter e
  | ExportSnapshot => None
  end.

Definition defense_of (op : Operation) (e : GameEngine) : option Player :=
  match op with
  | RecordShot _ _ d => participant d Role.defensive_catcher e
  | RecordSteal _ _ d | RecordBunt _ _ d => participant d Role.defensive_drinker e
  | RecordKnock _ _ _ => load Role.defensive_catcher e
  | ExportSnapshot => None
  end.

(** The log record an operation appends for itself when it goes through. *)
Definition own_event (op : Operation) (off dfn : Player) : GameEvent :=
  match op with
  | RecordShot outcome _ _ => play_event EventType.shot outcome off dfn
  | RecordSteal outcome _ _ => play_event EventType.steal outcome off dfn
  | RecordBunt outcome _ _ => play_event EventType.bunt outcome off dfn
  | RecordKnock f s t => knock_event f s t off dfn
  | ExportSnapshot => rotation_event ""
  end.

(** The rotation records one operation can log: none, or one of the two. *)
Definition one_rotation (rot : list GameEvent) : Prop :=
  rot = [] ∨ rot = [rotation_event "swap_offense"]
  ∨ rot = [rotation_event "full_rotation"].

(** A run that, when it returns, returns the snapshot of the game it
    leaves. *)
Definition snapshots (m : M GameSnapshot.t) : Prop :=
  ∀ e, match (m e).2 with
       | Ok snap => snap = from_game (game (m e).1)
       | Raise _ => True
       end.

(** ** Requests *)

(** The requests that only read. *)
Definition reads (r : App.Request) : Prop :=
  match r with
  | App.GetNextId | App.GetGame _ | App.GetSnapshot _ => True
  | _ => False
  end.

Definition patches (r : App.Request) : Prop :=
  match r with App.PatchRoles _ _ => True | _ => False end.

(** The game a request is about and the engine operation it asks for, for
    the requests that go to the engine: a play is asked for only with an
    outcome. *)
Definition asked (r : App.Request) : option (Z * Operation) :=
  match r with
  | App.PostShot g p =>
      outcome ← App.truthy (App.shot_outcome p);
      Some (g, RecordShot outcome (App.shooter_id p) (App.catcher_id p))
  | App.PostSteal g p =>
      outcome ← App.truthy (App.play_outcome p);
      Some (g, RecordSteal outcome (App.offense_id p) (App.defense_id p))
  | App.PostBunt g p =>
      outcome ← App.truthy (App.play_outcome p);
      Some (g, RecordBunt outcome (App.offense_id p) (App.defense_id p))
  | App.PostKnock g p =>
      Some (g, RecordKnock (App.first p) (App.second p) (App.third p))
  | App.GetSnapshot g => Some (g, ExportSnapshot)
  | _ => None
  end.

(** The players an operation names. *)
Definition named (op : Operation) : list Player :=
  match op with
  | RecordShot _ o d | RecordSteal _ o d | RecordBunt _ o d =>
      (option_list o ++ option_list d)%list
  | _ => []
  end.

(** The answer to an engine call that ended in [res]. *)
Definition answer (res : Result GameSnapshot.t) : App.Response :=
  match res with
  | Ok snap => App.jsonify (App.snapshot_dump snap)
  | Raise (ValueError msg) => App.jsonify_with (App.error msg) 400
  end.

(** A stored game with its game row replaced. *)
Definition with_row (g : Game) (stored : StoredGame) : StoredGame :=
  {| game_row := g;
     stats_rows := stats_rows stored;
     event_rows := event_rows stored |}.

(** The name of the column of a role slot. *)
Definition role_column (r : Role.t) : string :=
  match r with
  | Role.offensive_shooter => "offensive_shooter_id"
  | Role.offensive_drinker => "offensive_drinker_id"
  | Role.defensive_catcher => "defensive_catcher_id"
  | Role.defensive_drinker => "defensive_drinker_id"
  end.

(** Every key of the body is a role column, and every id in it is the id
    of a player. *)
Definition keys_allowed (payload : App.RolesPayload) : Prop :=
  Forall (λ kv, kv.1 ∈ App.allowed) payload.

Definition ids_known (db : Database) (payload : App.RolesPayload) : Prop :=
  Forall (λ kv, ∀ i, kv.2 = Some i → i ∈ player_table db) payload.

(** The body as the dictionary it is: of two items with one key the later
    counts. *)
Definition as_dict (payload : App.RolesPayload) : gmap string (option Z) :=
  list_to_map (reverse payload).

(** A database to serve requests on: players 1 to 4, and the sandlot game
    stored under 1. *)
Definition clubhouse : Database :=
  {| player_table := {[ 1; 2; 3; 4 ]};
     game_table := {[ 1 := {| game_row := sandlot_game;
                               stats_rows := ∅;
                               event_rows := [] |} ]} |}.

(** * Properties of the engine *)

(** ** Tactics: running the engine on a state given field by field *)

Ltac engine_fields e :=
  let pl := fresh "pl" in
  let st := fresh "st" in
  let ev := fresh "ev" in
  let g := fresh "g" in
  destruct e as [[pl st ev] g]; destruct g;
  cbn [game session stats players events
       game_id home_team away_team inning half outs strikes home_score away_score
       first_base second_base third_base status
       offensive_shooter_id offensive_drinker_id defensive_catcher_id
       defensive_drinker_id] in *.

Ltac engine_eval t :=
  eval lazy beta iota zeta delta
    [record_shot record_steal record_bunt record_knock export_snapshot perform
     _apply_shot _apply_steal _apply_bunt _apply_knock _handle_knock_cycle
     _score_run _handle_strike _increment_outs _swap_roles _refresh_scores
     _mark_in_progress _validate_players _log_event bump true_if if_base
     for_range times attr assign raise relationship
     prepared started with_game with_stats add_event getattr_id setattr_id
     set_inning set_half set_outs set_strikes set_home_score set_away_score
     set_first_base set_second_base set_third_base set_status
     set_offensive_shooter_id set_offensive_drinker_id
     set_defensive_catcher_id set_defensive_drinker_id
     knock_unit knock_column total_score
     play_event rotation_event clear_bases other_half batting_score fielding_score
     mbind mret M_bind M_ret fst snd
     game session stats players events
     game_id home_team away_team inning half outs strikes home_score away_score
     first_base second_base third_base status
     offensive_shooter_id offensive_drinker_id defensive_catcher_id
     defensive_drinker_id
     String.eqb Ascii.eqb Bool.eqb] in t.

(** Split on a test that is stuck on an unknown of the state. *)
Ltac engine_split t :=
  match t with
  | context [if ?c then _ else _] =>
      first [is_var c; destruct c | destruct c eqn:?]
  | context [match ?h with HalfInning.top => _ | HalfInning.bottom => _ end] =>
      first [is_var h; destruct h | destruct h eqn:?]
  | context [match ?s with GameStatus.scheduled => _ | _ => _ end] =>
      first [is_var s; destruct s | destruct s eqn:?]
  end.

(** Evaluate the run on the left of [run = (e', r) → _], on a state given
    field by field. *)
Ltac engine_run :=
  repeat
    match goal with
    | |- ?t = _ → _ =>
        first [ let t' := engine_eval t in progress (change t with t')
              | engine_split t ]
    end.

(** Name the outcome of running [m] and evaluate it. *)
Ltac engine_case m :=
  let e' := fresh "e'" in
  let r := fresh "r" in
  let E := fresh "E" in
  cbv zeta; destruct m as [e' r] eqn:E; cbn [fst snd]; revert E.

Ltac engine_done :=
  let E := fresh in intros E; injection E as <- <-; subst; cbn.

(** ** The monad *)

Lemma bind_ok {A B : Type} (m : M A) (k : A → M B) e e' a :
  m e = (e', Ok a) → (m ≫= k) e = k a e'.
Proof. intros H. unfold mbind, M_bind. now rewrite H. Qed.

Lemma bind_raise {A B : Type} (m : M A) (k : A → M B) e e' x :
  m e = (e', Raise x) → (m ≫= k) e = (e', Raise x).
Proof. intros H. unfold mbind, M_bind. now rewrite H. Qed.

Lemma bind_assoc {A B C : Type} (m : M A) (k : A → M B) (h : B → M C) e :
  ((m ≫= k) ≫= h) e = (m ≫= (λ a, k a ≫= h)) e.
Proof.
  unfold mbind, M_bind. destruct (m e) as [e1 [a|x]]; reflexivity.
Qed.


(** ** Statistics rows *)

Lemma column_with_column c c' v r :
  column c' (with_column c v r) = if Col.eqb c c' then v else column c' r.
Proof. destruct c, c'; reflexivity. Qed.

Lemma Col_eqb_eq c c' : Col.eqb c c' = true ↔ c = c'.
Proof. destruct c, c'; cbn; split; (reflexivity || discriminate). Qed.

Lemma column_incr c c' r :
  column c' (incr c r) = column c' r + (if Col.eqb c c' then 1 else 0).
Proof.
  unfold incr. rewrite column_with_column.
  destruct (Col.eqb c c') eqn:E; [|lia].
  apply Col_eqb_eq in E. now subst.
Qed.

Lemma column_new c : column c new_PlayerGameStats = 0.
Proof. destruct c; reflexivity. Qed.

Lemma get_or_create_run p e :
  _get_or_create_stats (Some p) e = (with_stats (ensure_row p) e, Ok (Some p)).
Proof.
  unfold _get_or_create_stats, with_stats, ensure_row.
  destruct e as [[pl st ev] g]; cbn.
  destruct (st !! p); reflexivity.
Qed.

Lemma ensure_row_is_Some p m : is_Some (ensure_row p m !! p).
Proof.
  unfold ensure_row. destruct (m !! p) eqn:E.
  - rewrite E. eauto.
  - rewrite lookup_insert_eq. eauto.
Qed.

Lemma ensure_row_mono p q m : is_Some (m !! q) → is_Some (ensure_row p m !! q).
Proof.
  unfold ensure_row. destruct (m !! p) eqn:E; [done|].
  intros H. destruct (decide (p = q)) as [->|Hne].
  - rewrite lookup_insert_eq. eauto.
  - now rewrite lookup_insert_ne.
Qed.

Lemma row_counter_ensure p m q c :
  row_counter (ensure_row p m) q c = row_counter m q c.
Proof.
  unfold row_counter, ensure_row. destruct (m !! p) eqn:E; [done|].
  destruct (decide (p = q)) as [->|Hne].
  - rewrite lookup_insert_eq, E. cbn. apply column_new.
  - now rewrite lookup_insert_ne.
Qed.

Lemma alter_is_Some (f : PlayerGameStats → PlayerGameStats) p q
    (m : gmap Z PlayerGameStats) :
  is_Some (m !! q) → is_Some (alter f p m !! q).
Proof.
  intros [r Hr]. rewrite lookup_alter. case_decide; subst; rewrite Hr; cbn; eauto.
Qed.

Lemma row_counter_incr c p m q c' :
  is_Some (m !! p) →
  row_counter (alter (incr c) p m) q c' =
  row_counter m q c' + (if decide (p = q) then if Col.eqb c c' then 1 else 0 else 0).
Proof.
  intros [r Hr]. unfold row_counter. rewrite lookup_alter.
  destruct (decide (p = q)) as [->|Hne].
  - rewrite Hr. cbn. apply column_incr.
  - lia.
Qed.

(** ** The common opening of the four recording operations *)

Lemma mark_run e : _mark_in_progress e = (started e, Ok ()).
Proof.
  unfold started. engine_fields e. destruct status0; reflexivity.
Qed.

Lemma started_session e : session (started e) = session e.
Proof. engine_fields e. destruct status0; reflexivity. Qed.

Lemma started_game e :
  game (started e) =
  match status (game e) with
  | GameStatus.scheduled => set_status GameStatus.in_progress (game e)
  | _ => game e
  end.
Proof. engine_fields e. destruct status0; reflexivity. Qed.

Lemma started_idle e : status (game e) ≠ GameStatus.scheduled → started e = e.
Proof.
  engine_fields e. destruct status0; cbn; intros H; [congruence|reflexivity..].
Qed.

Lemma load_started r e : load r (started e) = load r e.
Proof. engine_fields e. destruct status0, r; reflexivity. Qed.

Lemma record_shot_unfold outcome o d e sh ca :
  participant o Role.offensive_shooter e = Some sh →
  participant d Role.defensive_catcher e = Some ca →
  record_shot outcome o d e =
  (_apply_shot outcome sh ca (Some sh) (Some ca);;
   _log_event EventType.shot outcome (Some sh) (Some ca) None;;
   g ← attr id; mret (from_game g)) (prepared sh ca e).
Proof.
  unfold participant, record_shot, prepared. intros Ho Hd.
  erewrite bind_ok by apply mark_run.
  erewrite bind_ok by reflexivity.
  erewrite bind_ok by reflexivity.
  cbn zeta. rewrite !load_started, Ho, Hd.
  erewrite bind_ok by reflexivity. cbn beta iota.
  erewrite bind_ok by apply get_or_create_run.
  erewrite bind_ok by apply get_or_create_run.
  reflexivity.
Qed.

Lemma record_steal_unfold outcome o d e off dfn :
  participant o Role.offensive_drinker e = Some off →
  participant d Role.defensive_drinker e = Some dfn →
  record_steal outcome o d e =
  (_apply_steal outcome off dfn (Some off) (Some dfn);;
   _log_event EventType.steal outcome (Some off) (Some dfn) None;;
   g ← attr id; mret (from_game g)) (prepared off dfn e).
Proof.
  unfold participant, record_steal, prepared. intros Ho Hd.
  erewrite bind_ok by apply mark_run.
  erewrite bind_ok by reflexivity.
  erewrite bind_ok by reflexivity.
  cbn zeta. rewrite !load_started, Ho, Hd.
  erewrite bind_ok by reflexivity. cbn beta iota.
  erewrite bind_ok by apply get_or_create_run.
  erewrite bind_ok by apply get_or_create_run.
  reflexivity.
Qed.

Lemma record_bunt_unfold outcome o d e off dfn :
  participant o Role.offensive_drinker e = Some off →
  participant d Role.defensive_drinker e = Some dfn →
  record_bunt outcome o d e =
  (_apply_bunt outcome off dfn (Some off) (Some dfn);;
   _log_event EventType.bunt outcome (Some off) (Some dfn) None;;
   g ← attr id; mret (from_game g)) (prepared off dfn e).
Proof.
  unfold participant, record_bunt, prepared. intros Ho Hd.
  erewrite bind_ok by apply mark_run.
  erewrite bind_ok by reflexivity.
  erewrite bind_ok by reflexivity.
  cbn zeta. rewrite !load_started, Ho, Hd.
  erewrite bind_ok by reflexivity. cbn beta iota.
  erewrite bind_ok by apply get_or_create_run.
  erewrite bind_ok by apply get_or_create_run.
  reflexivity.
Qed.

Lemma record_knock_unfold first second third e sh ca :
  load Role.offensive_shooter e = Some sh →
  load Role.defensive_catcher e = Some ca →
  record_knock first second third e =
  (_apply_knock first second third sh ca (Some sh) (Some ca);;
   _log_event EventType.knock "update" (Some sh) (Some ca)
     (Some {[ "first" := first; "second" := second; "third" := third ]});;
   g ← attr id; mret (from_game g)) (prepared sh ca e).
Proof.
  unfold record_knock, prepared. intros Ho Hd.
  erewrite bind_ok by apply mark_run.
  erewrite bind_ok by reflexivity.
  erewrite bind_ok by reflexivity.
  rewrite !load_started, Ho, Hd.
  erewrite bind_ok by reflexivity. cbn beta iota.
  erewrite bind_ok by apply get_or_create_run.
  erewrite bind_ok by apply get_or_create_run.
  reflexivity.
Qed.

(** When a participant is missing the operation stops at the check. *)
Lemma validate_absent o d e :
  o = None ∨ d = None →
  _validate_players o d e = (e, Raise MissingParticipant).
Proof.
  intros [->| ->]; [|destruct o]; reflexivity.
Qed.

(** ** Missing participants *)

Lemma perform_absent op e :
  lacks_participant op e → perform op e = (started e, Raise MissingParticipant).
Proof.
  destruct op as [outcome o d|outcome o d|outcome o d|f s t|]; cbn [lacks_participant];
    unfold participant; intros H; [| | | |destruct H]; cbn [perform];
    unfold record_shot, record_steal, record_bunt, record_knock;
    (erewrite bind_ok by apply mark_run);
    (erewrite bind_ok by reflexivity);
    (erewrite bind_ok by reflexivity);
    cbn zeta; rewrite !load_started;
    (erewrite bind_raise; [reflexivity|]);
    apply validate_absent; tauto.
Qed.

(** C1, as stated, fails: a shot recorded on a scheduled game without a
    shooter raises [MissingParticipant], but the game has been moved to
    [in_progress] by then. *)
Lemma missing_participant_starts_game :
  lacks_participant (RecordShot "first" None None) unassigned ∧
  (record_shot "first" None None unassigned).2 = Raise MissingParticipant ∧
  status (game unassigned) = GameStatus.scheduled ∧
  status (game (record_shot "first" None None unassigned).1) = GameStatus.in_progress ∧
  (record_shot "first" None None unassigned).1 ≠ unassigned.
Proof.
  split; [left; reflexivity|].
  do 3 (split; [reflexivity|]).
  intros H. apply (f_equal (λ e, status (game e))) in H.
  vm_compute in H. discriminate H.
Qed.

(** C1, amended: when a required participant is missing, each of the four
    recording operations raises [MissingParticipant] having run
    [_mark_in_progress] and nothing else: the session (statistics rows,
    event log) is untouched, the game differs at most in [status], which
    has gone from [scheduled] to [in_progress], and a game that was not
    [scheduled] is left exactly as it was. *)
Theorem missing_participant_fails_after_start op e :
  lacks_participant op e →
  (perform op e).2 = Raise MissingParticipant ∧
  (perform op e).1 = (_mark_in_progress e).1 ∧
  session (perform op e).1 = session e ∧
  game (perform op e).1 =
    match status (game e) with
    | GameStatus.scheduled => set_status GameStatus.in_progress (game e)
    | _ => game e
    end ∧
  (status (game e) ≠ GameStatus.scheduled → (perform op e).1 = e).
Proof.
  intros H. rewrite (perform_absent op e H). cbn [fst snd].
  repeat split.
  - apply started_session.
  - apply started_game.
  - apply started_idle.
Qed.

Lemma missing_participant_fails_after_start_witness :
  lacks_participant (RecordKnock 1 0 0) unassigned ∧
  (perform (RecordKnock 1 0 0) unassigned).2 = Raise MissingParticipant ∧
  session (perform (RecordKnock 1 0 0) unassigned).1 = session unassigned.
Proof.
  assert (H : lacks_participant (RecordKnock 1 0 0) unassigned) by (left; reflexivity).
  split; [exact H|].
  destruct (missing_participant_fails_after_start (RecordKnock 1 0 0) unassigned H)
    as (H1 & _ & H2 & _).
  split; [exact H1|exact H2].
Defined.

(** ** The out sub-rule *)

(** C2: the second out.  With [outs] at 1 the out sub-rule swaps the two
    drinkers, swaps shooter and catcher, resets [outs] and [strikes] to 0,
    flips [half], adds one to [inning] exactly when the new half is [top] and
    appends a [rotation]/[full_rotation] record.  Hence two invocations in a
    row from [outs] at 0 other_half [half] exactly once: the first leaves it as it
    is, the second flips it. *)
Theorem second_out_rotates :
  (∀ e, outs (game e) = 1 →
     let e' := (_increment_outs e).1 in
     (_increment_outs e).2 = Ok () ∧
     defensive_drinker_id (game e') = offensive_drinker_id (game e) ∧
     offensive_drinker_id (game e') = defensive_drinker_id (game e) ∧
     offensive_shooter_id (game e') = defensive_catcher_id (game e) ∧
     defensive_catcher_id (game e') = offensive_shooter_id (game e) ∧
     outs (game e') = 0 ∧
     strikes (game e') = 0 ∧
     half (game e') = other_half (half (game e)) ∧
     inning (game e') =
       match half (game e') with
       | HalfInning.top => inning (game e) + 1
       | HalfInning.bottom => inning (game e)
       end ∧
     events (session e') =
       (events (session e) ++ [rotation_event "full_rotation"])%list) ∧
  (∀ e, outs (game e) = 0 →
     let e1 := (_increment_outs e).1 in
     let e2 := ((_increment_outs;; _increment_outs) e).1 in
     ((_increment_outs;; _increment_outs) e).2 = Ok () ∧
     outs (game e1) = 1 ∧
     half (game e1) = half (game e) ∧
     half (game e2) = other_half (half (game e)) ∧
     half (game e2) ≠ half (game e) ∧
     outs (game e2) = 0 ∧
     inning (game e2) =
       match half (game e2) with
       | HalfInning.top => inning (game e) + 1
       | HalfInning.bottom => inning (game e)
       end).
Proof.
  split; intros e H.
  - engine_case (_increment_outs e).
    engine_fields e; cbn in H; subst.
    destruct half0; engine_run; try lia; engine_done; repeat split.
  - engine_case ((_increment_outs;; _increment_outs) e).
    engine_case (_increment_outs e).
    engine_fields e; cbn in H; subst.
    destruct half0; engine_run; try lia;
      engine_done; engine_run; try lia;
      engine_done; repeat split; discriminate.
Qed.

Lemma second_out_rotates_witness :
  let e := (_increment_outs sandlot).1 in
  outs (game e) = 1 ∧
  half (game (_increment_outs e).1) = HalfInning.bottom ∧
  offensive_shooter_id (game (_increment_outs e).1) = Some 3.
Proof.
  intros e.
  assert (H : outs (game e) = 1) by reflexivity.
  split; [exact H|].
  destruct (proj1 second_out_rotates e H) as (_ & _ & _ & H1 & _ & _ & _ & H2 & _).
  split; [exact H2|exact H1].
Defined.

(** ** Properties of [outs] kept by every operation *)

Lemma increment_outs_outs e :
  outs (game (_increment_outs e).1) = next_outs (outs (game e)).
Proof.
  engine_case (_increment_outs e). unfold next_outs.
  engine_fields e. engine_run; engine_done; lia.
Qed.

Create HintDb keeps.

Section OutsInvariant.
Variable P : Z → Prop.
Hypothesis P_next : ∀ o, P o → P (next_outs o).

Lemma keeps_ret {A : Type} (a : A) : keeps_outs P (mret a).
Proof. intros e H. exact H. Qed.

Lemma keeps_raise {A : Type} x : keeps_outs P (raise x : M A).
Proof. intros e H. exact H. Qed.

Lemma keeps_bind {A B : Type} (m : M A) (k : A → M B) :
  keeps_outs P m → (∀ a, keeps_outs P (k a)) → keeps_outs P (m ≫= k).
Proof.
  intros Hm Hk e H. specialize (Hm e H).
  unfold mbind, M_bind. destruct (m e) as [e1 [a|x]]; cbn in *.
  - now apply Hk.
  - exact Hm.
Qed.

Lemma keeps_attr {A : Type} (f : Game → A) : keeps_outs P (attr f).
Proof. intros e H. exact H. Qed.

Lemma keeps_assign f : (∀ g, outs (f g) = outs g) → keeps_outs P (assign f).
Proof. intros Hf e H. cbn. now rewrite Hf. Qed.

Lemma keeps_bump row c : keeps_outs P (bump row c).
Proof. intros e H. destruct row; exact H. Qed.

Lemma keeps_log t o a b md : keeps_outs P (_log_event t o a b md).
Proof. intros e H. exact H. Qed.

Lemma keeps_relationship r : keeps_outs P (relationship r).
Proof. intros e H. exact H. Qed.

Lemma keeps_get_or_create p : keeps_outs P (_get_or_create_stats p).
Proof.
  intros e H. destruct p as [p|]; [|exact H].
  now rewrite get_or_create_run.
Qed.

Lemma keeps_validate o d : keeps_outs P (_validate_players o d).
Proof. intros e H. destruct o, d; exact H. Qed.

Lemma keeps_times n body : keeps_outs P body → keeps_outs P (times n body).
Proof.
  intros Hb. induction n as [|n IH]; cbn [times].
  - apply keeps_ret.
  - apply keeps_bind; [exact Hb|intros _; exact IH].
Qed.

Lemma keeps_increment_outs : keeps_outs P _increment_outs.
Proof. intros e H. rewrite increment_outs_outs. now apply P_next. Qed.

Ltac keeps_step :=
  first
    [ apply keeps_ret | apply keeps_raise | apply keeps_attr
    | apply keeps_bump | apply keeps_log | apply keeps_relationship
    | apply keeps_get_or_create | apply keeps_validate
    | apply keeps_increment_outs
    | apply keeps_assign; intros []; reflexivity
    | apply keeps_times
    | apply keeps_bind; [|intros ?]
    | match goal with
      | |- keeps_outs _ (if ?b then _ else _) => destruct b
      | |- keeps_outs _ (match ?x with _ => _ end) => destruct x
      end ].

Ltac keeps_auto := cbv zeta; repeat (keeps_step; cbv zeta).

Lemma keeps_mark : keeps_outs P _mark_in_progress.
Proof. unfold _mark_in_progress. keeps_auto. Qed.

Lemma keeps_score_run p row : keeps_outs P (_score_run p row).
Proof. unfold _score_run. keeps_auto. Qed.

Lemma keeps_handle_strike : keeps_outs P _handle_strike.
Proof. unfold _handle_strike. keeps_auto. Qed.

Lemma keeps_if_base b stmt : keeps_outs P stmt → keeps_outs P (if_base b stmt).
Proof. intros H. unfold if_base. keeps_auto. exact H. Qed.

Lemma keeps_true_if b t : keeps_outs P (true_if b t).
Proof. unfold true_if. keeps_auto. Qed.

Hint Resolve keeps_score_run keeps_handle_strike keeps_if_base keeps_true_if
  keeps_mark : keeps.

Ltac keeps_engine := cbv zeta; repeat (first [solve [auto with keeps]|keeps_step]; cbv zeta).

Lemma keeps_apply_shot outcome sh ca r1 r2 :
  keeps_outs P (_apply_shot outcome sh ca r1 r2).
Proof. unfold _apply_shot, _refresh_scores. keeps_engine. Qed.

Lemma keeps_apply_steal outcome o d r1 r2 :
  keeps_outs P (_apply_steal outcome o d r1 r2).
Proof. unfold _apply_steal, _refresh_scores. keeps_engine. Qed.

Lemma keeps_apply_bunt outcome o d r1 r2 :
  keeps_outs P (_apply_bunt outcome o d r1 r2).
Proof. unfold _apply_bunt, _refresh_scores. keeps_engine. Qed.

Lemma keeps_knock_cycle base sh r1 :
  keeps_outs P (_handle_knock_cycle base sh r1).
Proof. unfold _handle_knock_cycle, _refresh_scores. keeps_engine. Qed.

Hint Resolve keeps_apply_shot keeps_apply_steal keeps_apply_bunt
  keeps_knock_cycle : keeps.

Lemma keeps_apply_knock f s t sh ca r1 r2 :
  keeps_outs P (_apply_knock f s t sh ca r1 r2).
Proof. unfold _apply_knock, for_range. keeps_engine. Qed.

Hint Resolve keeps_apply_knock : keeps.

Lemma keeps_perform op : keeps_outs P (perform op).
Proof.
  destruct op; cbn [perform];
    unfold record_shot, record_steal, record_bunt, record_knock, export_snapshot;
    keeps_engine.
Qed.
End OutsInvariant.

(** C3: over any sequence of engine operations, successful or not, on a
    game whose stored [outs] starts within 0..2, every state seen between
    operations has [outs] within 0..2: a third out is never stored, the out
    sub-rule rotates and resets within the operation that records it. *)
Theorem outs_never_exceeds_two ops e :
  0 <= outs (game e) <= 2 →
  Forall (λ e', 0 <= outs (game e') <= 2) (observed ops e).
Proof.
  revert e. induction ops as [|op ops IH]; intros e H; cbn [observed].
  - constructor.
  - assert (H' : 0 <= outs (game (perform op e).1) <= 2).
    { apply (keeps_perform (λ o, 0 <= o <= 2)); [|exact H].
      intros o Ho. unfold next_outs.
      destruct (o + 1 =? 1)%Z eqn:E1; [lia|].
      destruct (o + 1 >=? 2)%Z eqn:E2; lia. }
    constructor; [exact H'|]. now apply IH.
Qed.

Lemma outs_never_exceeds_two_witness :
  0 <= outs (game sandlot) <= 2 ∧
  Forall (λ e', 0 <= outs (game e') <= 2)
    (observed [RecordShot "out" None None; RecordSteal "fail" None None;
               RecordBunt "fail" None None; RecordKnock 1 0 0] sandlot).
Proof.
  assert (H : 0 <= outs (game sandlot) <= 2) by (cbn; lia).
  split; [exact H|].
  exact (outs_never_exceeds_two _ sandlot H).
Defined.

(** C9: an operation started with [outs] at 0 or 1 ends with [outs] at 0 or
    1; the value 2 is never left behind, because the branch taken when
    [outs] reaches 2 resets it to 0 within the same operation. *)
Theorem second_out_never_persists op e :
  outs (game e) = 0 ∨ outs (game e) = 1 →
  outs (game (perform op e).1) = 0 ∨ outs (game (perform op e).1) = 1.
Proof.
  apply (keeps_perform (λ o, o = 0 ∨ o = 1)).
  intros o [-> | ->]; [right|left]; reflexivity.
Qed.

Lemma second_out_never_persists_witness :
  let e := (perform (RecordShot "out" None None) sandlot).1 in
  (outs (game e) = 0 ∨ outs (game e) = 1) ∧
  (outs (game (perform (RecordSteal "fail" None None) e).1) = 0 ∨
   outs (game (perform (RecordSteal "fail" None None) e).1) = 1).
Proof.
  intros e.
  assert (H : outs (game e) = 0 ∨ outs (game e) = 1) by (right; reflexivity).
  split; [exact H|].
  exact (second_out_never_persists (RecordSteal "fail" None None) e H).
Defined.

(** ** Recorded events *)

Ltac rows_ok :=
  repeat apply alter_is_Some;
  first [assumption | apply ensure_row_is_Some
        | apply ensure_row_mono, ensure_row_is_Some].

Ltac counters :=
  unfold counter; cbn;
  rewrite ?row_counter_incr by rows_ok;
  rewrite ?row_counter_ensure;
  repeat case_decide; cbn; try congruence; try lia.







(** *** Strikes *)






(** ** Unknown outcomes *)

Lemma bump_run row c e : ∃ e1, bump row c e = (e1, Ok ()).
Proof. destruct row; eexists; reflexivity. Qed.

Ltac eqb_false H :=
  repeat match goal with
  | |- context [String.eqb ?o ?l] =>
      let E := fresh "E" in
      assert (E : String.eqb o l = false)
        by (apply String.eqb_neq; intros ->; apply H;
            repeat first [apply list_elem_of_here | apply list_elem_of_further]);
      rewrite E; clear E
  end.

Lemma apply_shot_unknown outcome sh ca r1 r2 e :
  outcome ∉ shot_outcomes →
  (_apply_shot outcome sh ca r1 r2 e).2 = Raise (UnknownOutcome "shot" outcome).
Proof.
  intros H. unfold _apply_shot. eqb_false H. cbv zeta.
  destruct (bump_run r1 Col.shots_taken e) as [e1 E1].
  erewrite bind_ok by exact E1.
  erewrite bind_raise; reflexivity.
Qed.

Lemma apply_steal_unknown outcome off dfn r1 r2 e :
  outcome ∉ play_outcomes →
  (_apply_steal outcome off dfn r1 r2 e).2 = Raise (UnknownOutcome "steal" outcome).
Proof.
  intros H. unfold _apply_steal. eqb_false H. cbv zeta.
  erewrite bind_raise; reflexivity.
Qed.

Lemma apply_bunt_unknown outcome off dfn r1 r2 e :
  outcome ∉ play_outcomes →
  (_apply_bunt outcome off dfn r1 r2 e).2 = Raise (UnknownOutcome "bunt" outcome).
Proof.
  intros H. unfold _apply_bunt. eqb_false H. cbv zeta.
  erewrite bind_raise; reflexivity.
Qed.

Ltac known_outcome H :=
  unfold shot_outcomes, play_outcomes in H;
  repeat (apply elem_of_cons in H as [->|H]); [..|apply elem_of_nil in H; destruct H].

Lemma apply_shot_known outcome sh ca e :
  outcome ∈ shot_outcomes →
  (_apply_shot outcome sh ca (Some sh) (Some ca) e).2 = Ok ().
Proof.
  intros H. known_outcome H.
  all: match goal with |- (?m ?x).2 = _ => engine_case (m x) end.
  all: engine_fields e; engine_run; engine_done; reflexivity.
Qed.

Lemma apply_steal_known outcome off dfn e :
  outcome ∈ play_outcomes →
  (_apply_steal outcome off dfn (Some off) (Some dfn) e).2 = Ok ().
Proof.
  intros H. known_outcome H.
  all: match goal with |- (?m ?x).2 = _ => engine_case (m x) end.
  all: engine_fields e; engine_run; engine_done; reflexivity.
Qed.

Lemma apply_bunt_known outcome off dfn e :
  outcome ∈ play_outcomes →
  (_apply_bunt outcome off dfn (Some off) (Some dfn) e).2 = Ok ().
Proof.
  intros H. known_outcome H.
  all: match goal with |- (?m ?x).2 = _ => engine_case (m x) end.
  all: engine_fields e; engine_run; engine_done; reflexivity.
Qed.

(** What the apply step raises or returns is what the operation raises or
    returns. *)
Lemma after_apply (m : M ()) (k : M GameSnapshot.t) e :
  (∀ e1, ∃ snap, (k e1).2 = Ok snap) →
  match (m e).2 with
  | Ok _ => ∃ snap, ((m;; k) e).2 = Ok snap
  | Raise x => ((m;; k) e).2 = Raise x
  end.
Proof.
  intros Hk. unfold mbind, M_bind. destruct (m e) as [e1 [[]|x]]; cbn.
  - apply Hk.
  - reflexivity.
Qed.

Lemma log_and_snapshot t outcome o d md e1 :
  ∃ snap, ((_log_event t outcome o d md;; g ← attr id; mret (from_game g)) e1).2
          = Ok snap.
Proof. eexists. reflexivity. Qed.

Lemma record_shot_outcome e outcome o d sh ca :
  participant o Role.offensive_shooter e = Some sh →
  participant d Role.defensive_catcher e = Some ca →
  (outcome ∈ shot_outcomes → ∃ snap, (record_shot outcome o d e).2 = Ok snap) ∧
  (outcome ∉ shot_outcomes →
   (record_shot outcome o d e).2 = Raise (UnknownOutcome "shot" outcome)).
Proof.
  intros Ho Hd. rewrite (record_shot_unfold _ _ _ _ _ _ Ho Hd).
  pose proof (after_apply (_apply_shot outcome sh ca (Some sh) (Some ca)) _
                (prepared sh ca e)
                (log_and_snapshot EventType.shot outcome (Some sh) (Some ca) None))
    as X.
  split; intros H.
  - now rewrite (apply_shot_known _ _ _ _ H) in X.
  - now rewrite (apply_shot_unknown _ _ _ _ _ _ H) in X.
Qed.

Lemma record_steal_outcome e outcome o d off dfn :
  participant o Role.offensive_drinker e = Some off →
  participant d Role.defensive_drinker e = Some dfn →
  (outcome ∈ play_outcomes → ∃ snap, (record_steal outcome o d e).2 = Ok snap) ∧
  (outcome ∉ play_outcomes →
   (record_steal outcome o d e).2 = Raise (UnknownOutcome "steal" outcome)).
Proof.
  intros Ho Hd. rewrite (record_steal_unfold _ _ _ _ _ _ Ho Hd).
  pose proof (after_apply (_apply_steal outcome off dfn (Some off) (Some dfn)) _
                (prepared off dfn e)
                (log_and_snapshot EventType.steal outcome (Some off) (Some dfn) None))
    as X.
  split; intros H.
  - now rewrite (apply_steal_known _ _ _ _ H) in X.
  - now rewrite (apply_steal_unknown _ _ _ _ _ _ H) in X.
Qed.

Lemma record_bunt_outcome e outcome o d off dfn :
  participant o Role.offensive_drinker e = Some off →
  participant d Role.defensive_drinker e = Some dfn →
  (outcome ∈ play_outcomes → ∃ snap, (record_bunt outcome o d e).2 = Ok snap) ∧
  (outcome ∉ play_outcomes →
   (record_bunt outcome o d e).2 = Raise (UnknownOutcome "bunt" outcome)).
Proof.
  intros Ho Hd. rewrite (record_bunt_unfold _ _ _ _ _ _ Ho Hd).
  pose proof (after_apply (_apply_bunt outcome off dfn (Some off) (Some dfn)) _
                (prepared off dfn e)
                (log_and_snapshot EventType.bunt outcome (Some off) (Some dfn) None))
    as X.
  split; intros H.
  - now rewrite (apply_bunt_known _ _ _ _ H) in X.
  - now rewrite (apply_bunt_unknown _ _ _ _ _ _ H) in X.
Qed.





(** ** Knocks *)

Lemma bind_ext {A B : Type} (m m' : M A) (k k' : A → M B) e :
  m e = m' e → (∀ a e1, k a e1 = k' a e1) → (m ≫= k) e = (m' ≫= k') e.
Proof.
  intros Hm Hk. unfold mbind, M_bind. rewrite Hm.
  destruct (m' e) as [e1 [a|x]]; [apply Hk|reflexivity].
Qed.

Lemma run_units_app l1 l2 sh ca e :
  run_units (l1 ++ l2) sh ca e = (run_units l1 sh ca;; run_units l2 sh ca) e.
Proof.
  revert e. induction l1 as [|b l1 IH]; intros e; cbn [app run_units].
  - reflexivity.
  - rewrite bind_assoc. apply bind_ext; [reflexivity|]. intros _ e1. apply IH.
Qed.

Lemma times_units n base sh ca e :
  times n (knock_unit base sh ca) e = run_units (replicate n base) sh ca e.
Proof.
  revert e. induction n as [|n IH]; intros e; cbn [times replicate run_units].
  - reflexivity.
  - apply bind_ext; [reflexivity|]. intros _ e1. apply IH.
Qed.

(** The three loops of [_apply_knock] run the units of [knock_units], in
    that order. *)
Lemma apply_knock_units f s t sh ca e :
  _apply_knock f s t sh ca (Some sh) (Some ca) e
  = run_units (knock_units f s t) sh ca e.
Proof.
  unfold _apply_knock, knock_units, for_range.
  rewrite run_units_app.
  apply bind_ext; [apply (times_units _ "first")|]. intros _ e1.
  rewrite run_units_app.
  apply bind_ext; [apply (times_units _ "second")|]. intros _ e2.
  apply (times_units _ "third").
Qed.




Lemma knock_units_bases f s t : Forall knock_base (knock_units f s t).
Proof.
  unfold knock_units, knock_base.
  rewrite !Forall_app. repeat split; apply Forall_replicate; tauto.
Qed.

(** One unit on an engine holding the rows of shooter and catcher. *)
Lemma knock_unit_effect base sh ca e :
  knock_base base → rows_present sh ca e →
  let e' := (knock_unit base sh ca e).1 in
  (knock_unit base sh ca e).2 = Ok () ∧
  rows_present sh ca e' ∧
  strikes (game e') = strikes (game e) ∧
  events (session e') = events (session e) ∧
  (∀ p c, Col.is_shot c = true → counter e' p c = counter e p c) ∧
  (∀ c, Col.is_knock c = true →
        counter e' ca c
        = counter e ca c + (if Col.eqb (knock_column base) c then 1 else 0)) ∧
  counter e' sh Col.points_for - total_score (game e')
  = counter e sh Col.points_for - total_score (game e).
Proof.
  intros Hb [Hs Hc].
  engine_case (knock_unit base sh ca e).
  engine_fields e.
  destruct Hb as [->|[->| ->]]; engine_run; engine_done;
    unfold rows_present, total_score; cbn.
  all: repeat split; try rows_ok.
  all: try (intros p c Hk; counters; destruct c; cbn in *; (discriminate || lia)).
  all: try (intros c Hk; counters; destruct c; cbn in *; (discriminate || lia)).
  all: counters.
Qed.

Lemma run_units_effect units sh ca e :
  Forall knock_base units → rows_present sh ca e →
  let e' := (run_units units sh ca e).1 in
  (run_units units sh ca e).2 = Ok () ∧
  rows_present sh ca e' ∧
  strikes (game e') = strikes (game e) ∧
  events (session e') = events (session e) ∧
  (∀ p c, Col.is_shot c = true → counter e' p c = counter e p c) ∧
  (∀ c, Col.is_knock c = true →
        counter e' ca c = counter e ca c + knocks_on c units) ∧
  counter e' sh Col.points_for - total_score (game e')
  = counter e sh Col.points_for - total_score (game e).
Proof.
  intros Hb. revert e. induction Hb as [|b units Hb _ IH]; intros e Hr.
  - cbn. repeat split; try apply Hr. intros c _. lia.
  - cbn [run_units knocks_on].
    destruct (knock_unit_effect b sh ca e Hb Hr) as (U1 & U2 & U3 & U4 & U5 & U6 & U7).
    destruct (knock_unit b sh ca e) as [e1 r1] eqn:E1. cbn [fst snd] in *. subst r1.
    rewrite (bind_ok _ _ _ _ _ E1).
    destruct (IH e1 U2) as (V1 & V2 & V3 & V4 & V5 & V6 & V7).
    repeat split; try apply V2; try congruence.
    + intros p c Hc. rewrite V5, U5; auto.
    + intros c Hc. rewrite V6, U6; auto. lia.
Qed.

Lemma prepared_facts sh ca e :
  rows_present sh ca (prepared sh ca e) ∧
  (∀ p c, counter (prepared sh ca e) p c = counter e p c) ∧
  game (prepared sh ca e) = game (started e) ∧
  events (session (prepared sh ca e)) = events (session e).
Proof.
  unfold prepared, rows_present, counter. cbn.
  rewrite !started_session. repeat split.
  - apply ensure_row_mono, ensure_row_is_Some.
  - apply ensure_row_is_Some.
  - intros p c. now rewrite !row_counter_ensure.
Qed.

(** A knock with both participants in their slots: the units run on the
    prepared engine, then the knock is logged. *)
Lemma record_knock_run f s t e sh ca :
  load Role.offensive_shooter e = Some sh →
  load Role.defensive_catcher e = Some ca →
  let eu := (run_units (knock_units f s t) sh ca (prepared sh ca e)).1 in
  record_knock f s t e
  = (add_event {| event_type := EventType.knock; outcome := "update";
                  offense_player := Some sh; defense_player := Some ca;
                  metadata := Some {[ "first" := f; "second" := s; "third" := t ]} |}
       eu,
     Ok (from_game (game eu))).
Proof.
  intros Ho Hd eu. rewrite (record_knock_unfold _ _ _ _ _ _ Ho Hd).
  destruct (prepared_facts sh ca e) as (Hr & _).
  destruct (run_units_effect _ sh ca _ (knock_units_bases f s t) Hr) as (Hok & _).
  fold eu in Hok.
  erewrite bind_ok; [reflexivity|].
  rewrite apply_knock_units. subst eu.
  destruct (run_units _ _ _ _) as [e1 r1]. cbn in *. now subst r1.
Qed.


Lemma started_play e :
  same_play (game (started e)) (game e) ∧
  strikes (game (started e)) = strikes (game e) ∧
  outs (game (started e)) = outs (game e) ∧
  total_score (game (started e)) = total_score (game e).
Proof.
  rewrite started_game. unfold same_play.
  destruct (status (game e)); repeat split.
Qed.

(** The whole of a knock. *)
Lemma record_knock_effect f s t e sh ca :
  load Role.offensive_shooter e = Some sh →
  load Role.defensive_catcher e = Some ca →
  let e' := (record_knock f s t e).1 in
  let eu := (run_units (knock_units f s t) sh ca (prepared sh ca e)).1 in
  (record_knock f s t e).2 = Ok (from_game (game e')) ∧
  game e' = game eu ∧
  stats (session e') = stats (session eu) ∧
  events (session e') = (events (session e) ++ [knock_event f s t sh ca])%list ∧
  strikes (game e') = strikes (game e) ∧
  (∀ p c, Col.is_shot c = true → counter e' p c = counter e p c) ∧
  (∀ c, Col.is_knock c = true →
        counter e' ca c = counter e ca c + knocks_on c (knock_units f s t)) ∧
  counter e' sh Col.points_for - counter e sh Col.points_for
  = total_score (game e') - total_score (game e).
Proof.
  intros Ho Hd e' eu. subst e'.
  rewrite (record_knock_run f s t e sh ca Ho Hd). fold eu. cbn [fst snd].
  destruct (prepared_facts sh ca e) as (Hr & Hcnt & Hg & Hev).
  destruct (run_units_effect _ sh ca _ (knock_units_bases f s t) Hr)
    as (_ & _ & U3 & U4 & U5 & U6 & U7).
  fold eu in U3, U4, U5, U6, U7.
  destruct (started_play e) as (_ & S2 & _ & S4).
  rewrite Hg in U3, U7. rewrite S2 in U3. rewrite S4 in U7.
  change (counter (add_event ?ev eu)) with (counter eu).
  repeat split.
  - cbn. now rewrite U4, Hev.
  - exact U3.
  - intros p c Hc. now rewrite U5, Hcnt.
  - intros c Hc. now rewrite U6, Hcnt.
  - rewrite Hcnt in U7. cbn [game add_event]. lia.
Qed.



(** Two first-units and a second-unit from empty bases: the second-unit
    finds runners on first and second, sends the one to third, scores the
    other and puts its own runner on second. *)
Example knock_two_one :
  let g := game (record_knock 2 1 0 sandlot).1 in
  (first_base g, second_base g, third_base g) = (false, true, true) ∧
  away_score g = 1 ∧ home_score g = 0.
Proof. vm_compute. repeat split. Qed.




(** ** Scenarios *)

(** Empty bases; a shot to first, a shot to second, then a home run: the
    runner goes first, third, home, the second batter second, home, and the
    third batter scores too. *)
Example first_second_home :
  let g1 := game (record_shot "first" None None sandlot).1 in
  let e2 := (observed [RecordShot "first" None None;
                       RecordShot "second" None None] sandlot) in
  let e3 := (observed [RecordShot "first" None None;
                       RecordShot "second" None None;
                       RecordShot "home" None None] sandlot) in
  (first_base g1, second_base g1, third_base g1, away_score g1)
    = (true, false, false, 0) ∧
  (λ g, (first_base g, second_base g, third_base g, away_score g))
    <$> (game <$> last e2) = Some (false, true, true, 0) ∧
  (λ g, (first_base g, second_base g, third_base g, away_score g))
    <$> (game <$> last e3) = Some (false, false, false, 3).
Proof. vm_compute. repeat split. Qed.

(** One out, two strikes, and a strike: the side is retired, the half
    flips, and the catcher of the inning comes to bat. *)
Example strike_three_on_second_out :
  let e := with_game (set_outs 1) (with_game (set_strikes 2) sandlot) in
  let g := game (record_shot "strike" None None e).1 in
  (outs g, strikes g, half g, inning g) = (0, 0, HalfInning.bottom, 1) ∧
  (offensive_shooter_id g, defensive_catcher_id g) = (Some 3, Some 1) ∧
  (offensive_drinker_id g, defensive_drinker_id g) = (Some 4, Some 2).
Proof. vm_compute. repeat split. Qed.

(** * Further properties *)

(** ** Relations every operation respects *)

Section Steps.
Variable R : GameEngine → GameEngine → Prop.
Hypothesis HR : respected R.

Lemma steps_ret {A : Type} (a : A) : steps R (mret a).
Proof. intros e. apply (rel_refl R HR). Qed.

Lemma steps_raise {A : Type} x : steps R (raise x : M A).
Proof. intros e. apply (rel_refl R HR). Qed.

Lemma steps_attr {A : Type} (f : Game → A) : steps R (attr f).
Proof. intros e. apply (rel_refl R HR). Qed.

Lemma steps_relationship r : steps R (relationship r).
Proof. intros e. apply (rel_refl R HR). Qed.

Lemma steps_validate o d : steps R (_validate_players o d).
Proof. intros e. destruct o, d; apply (rel_refl R HR). Qed.

Lemma steps_bind {A B : Type} (m : M A) (k : A → M B) :
  steps R m → (∀ a, steps R (k a)) → steps R (m ≫= k).
Proof.
  intros Hm Hk e. specialize (Hm e).
  unfold mbind, M_bind. destruct (m e) as [e1 [a|x]]; cbn in *.
  - apply (rel_trans R HR _ e1); [exact Hm|apply Hk].
  - exact Hm.
Qed.

Lemma steps_times n body : steps R body → steps R (times n body).
Proof.
  intros Hb. induction n as [|n IH]; cbn [times].
  - apply steps_ret.
  - apply steps_bind; [exact Hb|intros _; exact IH].
Qed.

Ltac steps_step :=
  first
    [ apply steps_ret | apply steps_raise | apply steps_attr
    | apply steps_relationship | apply steps_validate
    | apply (rel_mark R HR) | apply (rel_create R HR) | apply (rel_bump R HR)
    | apply (rel_log R HR) | apply (rel_score_run R HR)
    | apply (rel_increment_outs R HR) | apply (rel_handle_strike R HR)
    | apply (rel_strikes R HR) | apply (rel_first_base R HR)
    | apply (rel_second_base R HR) | apply (rel_third_base R HR)
    | apply steps_times
    | apply steps_bind; [|intros ?]
    | match goal with
      | |- steps _ (if ?b then _ else _) => destruct b
      | |- steps _ (match ?x with _ => _ end) => destruct x
      end ].

Ltac steps_engine := cbv zeta; repeat (steps_step; cbv zeta).

Lemma steps_apply_shot outcome sh ca r1 r2 :
  steps R (_apply_shot outcome sh ca r1 r2).
Proof. unfold _apply_shot, _refresh_scores, if_base, true_if. steps_engine. Qed.

Lemma steps_apply_steal outcome o d r1 r2 :
  steps R (_apply_steal outcome o d r1 r2).
Proof. unfold _apply_steal, _refresh_scores, if_base, true_if. steps_engine. Qed.

Lemma steps_apply_bunt outcome o d r1 r2 :
  steps R (_apply_bunt outcome o d r1 r2).
Proof. unfold _apply_bunt, _refresh_scores, if_base, true_if. steps_engine. Qed.

Lemma steps_apply_knock f s t sh ca r1 r2 :
  steps R (_apply_knock f s t sh ca r1 r2).
Proof.
  unfold _apply_knock, for_range, _handle_knock_cycle, _refresh_scores,
    if_base, true_if.
  steps_engine.
Qed.

Lemma steps_perform op : steps R (perform op).
Proof.
  destruct op; cbn [perform];
    unfold record_shot, record_steal, record_bunt, record_knock, export_snapshot;
    cbv zeta;
    repeat (first [ apply steps_apply_shot | apply steps_apply_steal
                  | apply steps_apply_bunt | apply steps_apply_knock
                  | steps_step ]; cbv zeta).
Qed.

Lemma steps_observed ops e : Forall (R e) (observed ops e).
Proof.
  assert (G : ∀ e0, R e e0 → Forall (R e) (observed ops e0)).
  { induction ops as [|op ops IH]; intros e0 H0; cbn [observed].
    - constructor.
    - assert (H1 : R e (perform op e0).1).
      { apply (rel_trans R HR _ e0); [exact H0|apply steps_perform]. }
      constructor; [exact H1|]. now apply IH. }
  apply G, (rel_refl R HR).
Qed.
End Steps.

(** Run one building block on a state given field by field. *)
Ltac unit_case :=
  unfold steps; intros;
  repeat match goal with x : option _ |- _ => destruct x end;
  match goal with
  | |- _ ?e (_get_or_create_stats (Some ?p) ?e).1 =>
      rewrite (get_or_create_run p e); cbn [fst]; engine_fields e
  | |- _ ?e (?m ?e).1 =>
      engine_case (m e); engine_fields e; engine_run; engine_done
  end.

Lemma scores_grow_respected : respected scores_grow.
Proof.
  split.
  1: intros e; unfold scores_grow; lia.
  1: intros a b c [] []; unfold scores_grow; lia.
  all: unit_case; unfold scores_grow; cbn; lia.
Qed.

Lemma row_counter_incr_le c p (m : gmap Z PlayerGameStats) q c' :
  row_counter m q c' <= row_counter (alter (incr c) p m) q c'.
Proof.
  unfold row_counter. rewrite lookup_alter.
  destruct (decide (p = q)) as [->|Hne]; [|lia].
  destruct (m !! q) as [r|]; cbn; [|lia].
  rewrite column_incr. destruct (Col.eqb c c'); lia.
Qed.

Lemma counters_grow_respected : respected counters_grow.
Proof.
  split.
  1: intros e p c; lia.
  1: intros a b c Hab Hbc p k; specialize (Hab p k); specialize (Hbc p k); lia.
  all: unit_case; intros q k; unfold counter; cbn;
    rewrite ?row_counter_ensure; try apply row_counter_incr_le; lia.
Qed.

Lemma log_grows_respected : respected log_grows.
Proof.
  split.
  1: intros e; unfold log_grows; reflexivity.
  1: intros a b c Hab Hbc; unfold log_grows in *; now transitivity (events (session b)).
  all: unit_case; unfold log_grows; cbn;
    first [reflexivity | apply prefix_app_r; reflexivity].
Qed.

Lemma roles_kept_respected : respected roles_kept.
Proof.
  split.
  1: intros e; split; reflexivity.
  1: intros a b c [H1 H2] [H3 H4]; split; [now rewrite H1|congruence].
  all: unit_case; unfold roles_kept, role_ids; cbn; (split; [|reflexivity]);
    first [ reflexivity | apply perm_swap
          | apply (Permutation_app_comm [_; _] [_; _]) ].
Qed.

Lemma strikes_kept_respected : respected strikes_kept.
Proof.
  split.
  1: intros e H; exact H.
  1: intros a b c Hab Hbc H; auto.
  all: unit_case; unfold strikes_kept; cbn; lia.
Qed.

Lemma game_kept_respected : respected game_kept.
Proof.
  split.
  1: intros e; unfold game_kept; repeat split; (lia || (left; reflexivity)).
  1: { intros a b c (A1 & A2 & A3 & A4 & A5) (B1 & B2 & B3 & B4 & B5).
       unfold game_kept. repeat split; try congruence; try lia.
       destruct A5 as [A5|[A5 A6]], B5 as [B5|[B5 B6]];
         (left; congruence) || (right; split; congruence). }
  all: unit_case; unfold game_kept; cbn; repeat split; try lia;
    first [left; reflexivity | right; split; reflexivity].
Qed.

(** X1: over any sequence of operations, neither score ever goes down. *)
Theorem scores_never_decrease ops e :
  Forall (λ e', home_score (game e) <= home_score (game e') ∧
                away_score (game e) <= away_score (game e'))
    (observed ops e).
Proof.
  pose proof (steps_observed scores_grow scores_grow_respected ops e) as H.
  eapply Forall_impl; [exact H|].
  intros e' [Hh Ha]. split; assumption.
Qed.

(** X2: over any sequence of operations, no counter of any player ever goes
    down; a row once created keeps what it has counted. *)
Theorem counters_never_decrease ops e :
  Forall (λ e', ∀ p c, counter e p c <= counter e' p c) (observed ops e).
Proof.
  pose proof (steps_observed counters_grow counters_grow_respected ops e) as H.
  eapply Forall_impl; [exact H|].
  intros e' H' p c. apply H'.
Qed.

(** X3: the event log is append-only: after any sequence of operations the
    log it started with is still there, in order, at the front. *)
Theorem log_is_append_only ops e :
  Forall (λ e', events (session e) `prefix_of` events (session e'))
    (observed ops e).
Proof.
  pose proof (steps_observed log_grows log_grows_respected ops e) as H.
  eapply Forall_impl; [exact H|].
  intros e' H'. exact H'.
Qed.

(** X4: the role slots are only ever permuted among themselves: after any
    sequence of operations the four slots hold the occupants they held at the
    start, each as often as before, and the players table is as it was. *)
Theorem roles_only_permuted ops e :
  Forall (λ e', role_ids (game e) ≡ₚ role_ids (game e') ∧
                players (session e') = players (session e))
    (observed ops e).
Proof.
  pose proof (steps_observed roles_kept roles_kept_respected ops e) as H.
  eapply Forall_impl; [exact H|].
  intros e' [Hp Hs]. split; assumption.
Qed.

(** X5: a game whose [strikes] is within 0..2 keeps it there over any
    sequence of operations. *)
Theorem strikes_stay_in_range ops e :
  0 <= strikes (game e) <= 2 →
  Forall (λ e', 0 <= strikes (game e') <= 2) (observed ops e).
Proof.
  intros H.
  eapply Forall_impl; [exact (steps_observed strikes_kept strikes_kept_respected ops e)|].
  intros e' H'. exact (H' H).
Qed.

Lemma strikes_stay_in_range_witness :
  0 <= strikes (game sandlot) <= 2 ∧
  Forall (λ e', 0 <= strikes (game e') <= 2)
    (observed [RecordShot "strike" None None; RecordShot "strike" None None;
               RecordShot "strike" None None; RecordBunt "bonus" None None]
       sandlot).
Proof.
  assert (H : 0 <= strikes (game sandlot) <= 2) by (cbn; lia).
  split; [exact H|]. exact (strikes_stay_in_range _ sandlot H).
Defined.

(** X6: no sequence of operations changes the identity of the game (id,
    team names) or takes the inning back, and the only change of status is
    from [scheduled] to [in_progress]: a game that is [final] stays [final]
    whatever is recorded on it. *)
Theorem game_identity_kept ops e :
  Forall (λ e', game_id (game e') = game_id (game e) ∧
                home_team (game e') = home_team (game e) ∧
                away_team (game e') = away_team (game e) ∧
                inning (game e) <= inning (game e') ∧
                (status (game e') = status (game e) ∨
                 (status (game e) = GameStatus.scheduled ∧
                  status (game e') = GameStatus.in_progress)))
    (observed ops e).
Proof.
  pose proof (steps_observed game_kept game_kept_respected ops e) as H.
  eapply Forall_impl; [exact H|].
  intros e' (H1 & H2 & H3 & H4 & H5). repeat split; assumption.
Qed.

(** Recording on a game is recording on the game once started. *)
Lemma started_started e : started (started e) = started e.
Proof.
  apply started_idle. rewrite started_game.
  destruct (status (game e)) eqn:E; cbn; congruence.
Qed.

Lemma perform_started op e : records op → perform op e = perform op (started e).
Proof.
  destruct op; cbn [records perform]; intros H; [| | | |destruct H];
    unfold record_shot, record_steal, record_bunt, record_knock;
    rewrite (bind_ok _ _ e _ _ (mark_run e));
    rewrite (bind_ok _ _ (started e) _ _ (mark_run (started e)));
    now rewrite started_started.
Qed.

(** X7: every recording operation, whether it goes through or fails, leaves
    the game started: the status is not [scheduled] afterwards, and a status
    other than [scheduled] is left as it was. *)
Theorem recording_starts_game op e :
  records op →
  status (game (perform op e).1) ≠ GameStatus.scheduled ∧
  (status (game e) ≠ GameStatus.scheduled →
   status (game (perform op e).1) = status (game e)).
Proof.
  intros Hop.
  pose proof (steps_perform game_kept game_kept_respected op) as K.
  split.
  - rewrite (perform_started op e Hop).
    destruct (K (started e)) as (_ & _ & _ & _ & [Hs|[Hs _]]).
    + rewrite Hs, started_game. destruct (status (game e)) eqn:E; cbn; congruence.
    + rewrite started_game in Hs.
      destruct (status (game e)) eqn:E; cbn in Hs; congruence.
  - intros Hne. destruct (K e) as (_ & _ & _ & _ & [Hs|[Hs _]]); congruence.
Qed.

Lemma recording_starts_game_witness :
  records (RecordShot "bogus" None None) ∧
  status (game (perform (RecordShot "bogus" None None) sandlot).1)
    ≠ GameStatus.scheduled.
Proof.
  assert (H : records (RecordShot "bogus" None None)) by exact I.
  split; [exact H|].
  exact (proj1 (recording_starts_game (RecordShot "bogus" None None) sandlot H)).
Defined.

(** ** Plays, one by one *)

(** Split membership in a list of literals into its cases. *)
Ltac one_of H :=
  unfold hits, steals, shot_outcomes, play_outcomes in H;
  repeat (apply elem_of_cons in H as [->|H]); [..|apply elem_of_nil in H; destruct H].

(** Split on the unknown a test is stuck on: a field of the state first,
    then a comparison, computed when it is closed. *)
Ltac play_split t :=
  first
    [ match t with
      | context [if ?c then _ else _] => is_var c; destruct c
      | context [match ?s with GameStatus.scheduled => _ | _ => _ end] =>
          is_var s; destruct s
      end
    | match t with
      | context [(?a =? ?b)%Z] =>
          let v := eval vm_compute in (a =? b)%Z in
          match v with true => idtac | false => idtac end;
          change (a =? b)%Z with v
      | context [(?a >=? ?b)%Z] =>
          let v := eval vm_compute in (a >=? b)%Z in
          match v with true => idtac | false => idtac end;
          change (a >=? b)%Z with v
      end
    | match t with
      | context [if (?a =? ?b)%Z then _ else _] => destruct (a =? b)%Z eqn:?
      | context [if (?a >=? ?b)%Z then _ else _] => destruct (a >=? b)%Z eqn:?
      end ].

Ltac play_run :=
  repeat
    match goal with
    | |- ?t = _ → _ =>
        first [ let t' := engine_eval t in progress (change t with t')
              | play_split t ]
    end.

Ltac play_record e :=
  match goal with
  | |- context [?m (prepared ?o ?d e)] => engine_case (m (prepared o d e))
  end;
  engine_fields e; play_run.


Ltac play_done :=
  engine_done;
  unfold bases, runners, hit_table, steal_table, total_score, same_play, role_ids;
  cbn.












(** ** Operations that fail *)













(** ** Runs and points *)






(** ** The log of an operation that goes through *)

Ltac log_shape :=
  engine_done;
  first
    [ exists (@nil GameEvent); split; [left; reflexivity|reflexivity]
    | eexists (cons _ nil); split;
      [ | rewrite <- app_assoc; reflexivity ];
      first [right; left; reflexivity | right; right; reflexivity] ].

Lemma shot_log e outcome o d sh ca :
  outcome ∈ shot_outcomes →
  participant o Role.offensive_shooter e = Some sh →
  participant d Role.defensive_catcher e = Some ca →
  ∃ rot, one_rotation rot ∧
    events (session (record_shot outcome o d e).1)
    = (events (session e) ++ rot ++ [play_event EventType.shot outcome sh ca])%list.
Proof.
  intros H Ho Hd. rewrite (record_shot_unfold _ _ _ _ _ _ Ho Hd). clear Ho Hd.
  one_of H; play_record e; try congruence; log_shape.
Qed.

Lemma steal_log e outcome o d off dfn :
  outcome ∈ play_outcomes →
  participant o Role.offensive_drinker e = Some off →
  participant d Role.defensive_drinker e = Some dfn →
  ∃ rot, one_rotation rot ∧
    events (session (record_steal outcome o d e).1)
    = (events (session e) ++ rot ++ [play_event EventType.steal outcome off dfn])%list.
Proof.
  intros H Ho Hd. rewrite (record_steal_unfold _ _ _ _ _ _ Ho Hd). clear Ho Hd.
  one_of H; play_record e; try congruence; log_shape.
Qed.

Lemma bunt_log e outcome o d off dfn :
  outcome ∈ play_outcomes →
  participant o Role.offensive_drinker e = Some off →
  participant d Role.defensive_drinker e = Some dfn →
  ∃ rot, one_rotation rot ∧
    events (session (record_bunt outcome o d e).1)
    = (events (session e) ++ rot ++ [play_event EventType.bunt outcome off dfn])%list.
Proof.
  intros H Ho Hd. rewrite (record_bunt_unfold _ _ _ _ _ _ Ho Hd). clear Ho Hd.
  one_of H; play_record e; try congruence; log_shape.
Qed.

(** X16: a recording operation that goes through has had both its
    participants, and has added to the log its own record, last, after at
    most one rotation record; nothing else. *)
Theorem successful_operation_log op e snap :
  records op →
  (perform op e).2 = Ok snap →
  ∃ off dfn rot,
    offense_of op e = Some off ∧
    defense_of op e = Some dfn ∧
    one_rotation rot ∧
    events (session (perform op e).1)
    = (events (session e) ++ rot ++ [own_event op off dfn])%list.
Proof.
  intros Hop Hok.
  assert (Hpart : ¬ lacks_participant op e).
  { intros Hl. rewrite (perform_absent op e Hl) in Hok. discriminate. }
  destruct (offense_of op e) as [off|] eqn:Ho.
  2: { exfalso. apply Hpart.
       destruct op; cbn [offense_of lacks_participant records] in *;
         (left; exact Ho) || contradiction. }
  destruct (defense_of op e) as [dfn|] eqn:Hd.
  2: { exfalso. apply Hpart.
       destruct op; cbn [defense_of lacks_participant records] in *;
         (right; exact Hd) || contradiction. }
  exists off, dfn.
  destruct op as [outcome o d|outcome o d|outcome o d|f s t|];
    cbn [offense_of defense_of perform own_event records] in *.
  - destruct (decide (outcome ∈ shot_outcomes)) as [Hin|Hout].
    + destruct (shot_log e outcome o d off dfn Hin Ho Hd) as (rot & Hr & Hev). eauto.
    + rewrite (proj2 (record_shot_outcome e outcome o d off dfn Ho Hd) Hout) in Hok.
      discriminate.
  - destruct (decide (outcome ∈ play_outcomes)) as [Hin|Hout].
    + destruct (steal_log e outcome o d off dfn Hin Ho Hd) as (rot & Hr & Hev). eauto.
    + rewrite (proj2 (record_steal_outcome e outcome o d off dfn Ho Hd) Hout) in Hok.
      discriminate.
  - destruct (decide (outcome ∈ play_outcomes)) as [Hin|Hout].
    + destruct (bunt_log e outcome o d off dfn Hin Ho Hd) as (rot & Hr & Hev). eauto.
    + rewrite (proj2 (record_bunt_outcome e outcome o d off dfn Ho Hd) Hout) in Hok.
      discriminate.
  - exists (@nil GameEvent).
    split; [reflexivity|]. split; [reflexivity|]. split; [left; reflexivity|].
    apply (record_knock_effect f s t e off dfn Ho Hd).
  - contradiction.
Qed.

Lemma successful_operation_log_witness :
  let e := with_game (set_outs 1) sandlot in
  let op := RecordSteal "fail" None None in
  records op ∧
  (perform op e).2 = Ok (from_game (game (perform op e).1)) ∧
  length (events (session (perform op e).1)) = 2%nat.
Proof.
  intros e op.
  assert (Hop : records op) by exact I.
  assert (Hok : (perform op e).2 = Ok (from_game (game (perform op e).1)))
    by (vm_compute; reflexivity).
  split; [exact Hop|]. split; [exact Hok|].
  destruct (successful_operation_log op e _ Hop Hok)
    as (off & dfn & rot & _ & _ & _ & Hev).
  vm_compute. reflexivity.
Defined.

(** ** Snapshots *)

Lemma snapshots_final :
  snapshots (g ← attr id; mret (from_game g)).
Proof. intros e. reflexivity. Qed.

Lemma snapshots_bind {A : Type} (m : M A) (k : A → M GameSnapshot.t) :
  (∀ a, snapshots (k a)) → snapshots (m ≫= k).
Proof.
  intros Hk e. unfold mbind, M_bind.
  destruct (m e) as [e1 [a|x]]; cbn.
  - apply Hk.
  - exact I.
Qed.

Lemma snapshots_perform op : snapshots (perform op).
Proof.
  destruct op; cbn [perform];
    unfold record_shot, record_steal, record_bunt, record_knock, export_snapshot;
    cbv zeta;
    repeat first
      [ apply snapshots_final
      | apply snapshots_bind; intros ?
      | match goal with |- snapshots (match ?x with _ => _ end) => destruct x end ].
Qed.

(** X17: the snapshot an operation returns is the snapshot of the game it
    leaves, the one [export_snapshot] gives when asked right after, and
    [export_snapshot] itself changes nothing. *)
Theorem snapshot_is_of_final_game op e snap :
  (perform op e).2 = Ok snap →
  snap = from_game (game (perform op e).1) ∧
  export_snapshot (perform op e).1 = ((perform op e).1, Ok snap).
Proof.
  intros Hok. pose proof (snapshots_perform op e) as H. rewrite Hok in H.
  split; [exact H|]. rewrite H. reflexivity.
Qed.

Lemma snapshot_is_of_final_game_witness :
  let op := RecordShot "out" None None in
  (perform op sandlot).2 = Ok (from_game (game (perform op sandlot).1)) ∧
  GameSnapshot.outs (from_game (game (perform op sandlot).1)) = 1.
Proof.
  intros op.
  assert (Hok : (perform op sandlot).2 = Ok (from_game (game (perform op sandlot).1)))
    by (vm_compute; reflexivity).
  split; [exact Hok|].
  destruct (snapshot_is_of_final_game op sandlot _ Hok) as [_ H].
  vm_compute. reflexivity.
Defined.

(** ** The cycle of outs *)

(** X18: the first out.  With [outs] at 0 the out sub-rule makes it 1, swaps
    the shooter with the offensive drinker and leaves the two defenders where
    they are, resets [strikes], and logs one [rotation]/[swap_offense] record;
    the half, the inning, the status, the bases, the scores and the
    statistics stay as they were. *)
Theorem first_out_swaps_offense e :
  outs (game e) = 0 →
  let e' := (_increment_outs e).1 in
  (_increment_outs e).2 = Ok () ∧
  role_ids (game e') =
    [offensive_drinker_id (game e); offensive_shooter_id (game e);
     defensive_catcher_id (game e); defensive_drinker_id (game e)] ∧
  outs (game e') = 1 ∧
  strikes (game e') = 0 ∧
  half (game e') = half (game e) ∧
  inning (game e') = inning (game e) ∧
  status (game e') = status (game e) ∧
  same_play (game e') (game e) ∧
  stats (session e') = stats (session e) ∧
  events (session e') =
    (events (session e) ++ [rotation_event "swap_offense"])%list.
Proof.
  intros H. engine_case (_increment_outs e).
  engine_fields e; cbn in H; subst.
  play_run; play_done; repeat split.
Qed.

Lemma first_out_swaps_offense_witness :
  outs (game sandlot) = 0 ∧
  role_ids (game (_increment_outs sandlot).1) = [Some 2; Some 1; Some 3; Some 4].
Proof.
  assert (H : outs (game sandlot) = 0) by reflexivity.
  split; [exact H|].
  exact (proj1 (proj2 (first_out_swaps_offense sandlot H))).
Defined.

(** X19: the outs go round in a cycle of eight.  From [outs] at 0, four outs
    in a row are one full inning: both sides have batted, each pair has
    traded places within its side (shooter with offensive drinker, catcher
    with defensive drinker), the half is the one it was and the inning is one
    more.  Eight outs bring every player back to the slot they started in,
    two innings on.  Throughout, the bases and the scores are not touched. *)
Theorem eight_outs_full_circle e :
  outs (game e) = 0 →
  let e4 := (times 4 _increment_outs e).1 in
  let e8 := (times 8 _increment_outs e).1 in
  role_ids (game e4) =
    [offensive_drinker_id (game e); offensive_shooter_id (game e);
     defensive_drinker_id (game e); defensive_catcher_id (game e)] ∧
  half (game e4) = half (game e) ∧
  inning (game e4) = inning (game e) + 1 ∧
  outs (game e4) = 0 ∧
  same_play (game e4) (game e) ∧
  role_ids (game e8) = role_ids (game e) ∧
  half (game e8) = half (game e) ∧
  inning (game e8) = inning (game e) + 2 ∧
  outs (game e8) = 0 ∧
  same_play (game e8) (game e).
Proof.
  intros H.
  engine_case (times 8 _increment_outs e).
  engine_case (times 4 _increment_outs e).
  engine_fields e; cbn in H; subst.
  destruct half0; play_run; engine_done; play_run; play_done;
    repeat split; lia.
Qed.

Lemma eight_outs_full_circle_witness :
  outs (game sandlot) = 0 ∧
  role_ids (game (times 4 _increment_outs sandlot).1)
  = [Some 2; Some 1; Some 4; Some 3] ∧
  inning (game (times 8 _increment_outs sandlot).1) = 3.
Proof.
  assert (H : outs (game sandlot) = 0) by reflexivity.
  pose proof (eight_outs_full_circle sandlot H) as (Hr & _ & _ & _ & _ & _ & _ & Hi & _).
  split; [exact H|]. split; [exact Hr|exact Hi].
Defined.

(** ** The errors of the engine *)



(** * Properties of the routes *)

Lemma or_else_twice (a b : option Player) : or_else (or_else a b) b = or_else a b.
Proof. destruct a, b; reflexivity. Qed.

Lemma rows_of_engine_on db stored : App.rows_of (App.engine_on db stored) = stored.
Proof. destruct stored; reflexivity. Qed.

Lemma commit_same gid stored db :
  game_table db !! gid = Some stored → App.commit gid stored db = db.
Proof.
  intros H. destruct db as [pl gt]; unfold App.commit; cbn in *.
  f_equal. apply insert_id, H.
Qed.

Lemma load_game_found db gid stored :
  game_table db !! gid = Some stored → App._load_game db gid = App.Found stored.
Proof. unfold App._load_game. intros ->. reflexivity. Qed.

Lemma load_player_known db o :
  Forall (λ i, i ∈ player_table db) (option_list o) →
  App._load_player db o = App.Found o.
Proof.
  destruct o as [i|]; cbn; [|reflexivity].
  intros H. apply Forall_cons in H as [H _].
  destruct (decide (i ∈ player_table db)); [reflexivity|contradiction].
Qed.

(** The route hands the engine the player it resolved; the engine resolves
    it again, to the same player. *)
Lemma record_shot_resolved outcome o d e :
  record_shot outcome (or_else o (load Role.offensive_shooter e))
    (or_else d (load Role.defensive_catcher e)) e
  = record_shot outcome o d e.
Proof.
  unfold record_shot.
  erewrite (bind_ok _ _ e) by apply mark_run.
  symmetry. erewrite (bind_ok _ _ e) by apply mark_run. symmetry.
  erewrite !(bind_ok (relationship _)) by reflexivity.
  cbn zeta. rewrite !load_started, !or_else_twice. reflexivity.
Qed.

Lemma record_steal_resolved outcome o d e :
  record_steal outcome (or_else o (load Role.offensive_drinker e))
    (or_else d (load Role.defensive_drinker e)) e
  = record_steal outcome o d e.
Proof.
  unfold record_steal.
  erewrite (bind_ok _ _ e) by apply mark_run.
  symmetry. erewrite (bind_ok _ _ e) by apply mark_run. symmetry.
  erewrite !(bind_ok (relationship _)) by reflexivity.
  cbn zeta. rewrite !load_started, !or_else_twice. reflexivity.
Qed.

Lemma record_bunt_resolved outcome o d e :
  record_bunt outcome (or_else o (load Role.offensive_drinker e))
    (or_else d (load Role.defensive_drinker e)) e
  = record_bunt outcome o d e.
Proof.
  unfold record_bunt.
  erewrite (bind_ok _ _ e) by apply mark_run.
  symmetry. erewrite (bind_ok _ _ e) by apply mark_run. symmetry.
  erewrite !(bind_ok (relationship _)) by reflexivity.
  cbn zeta. rewrite !load_started, !or_else_twice. reflexivity.
Qed.

Lemma respond_run gid db (run : GameEngine * Result GameSnapshot.t) :
  App.respond gid db run = (App.commit gid (App.rows_of run.1) db, answer run.2).
Proof. destruct run as [e [snap|[msg]]]; reflexivity. Qed.

Lemma named_known db o d :
  Forall (λ i, i ∈ player_table db) (option_list o ++ option_list d) →
  App._load_player db o = App.Found o ∧ App._load_player db d = App.Found d.
Proof.
  intros H. apply Forall_app in H as [Ho Hd].
  split; apply load_player_known; assumption.
Qed.

(** A request that goes to the engine, about a stored game and naming
    players that exist, is the engine operation it asks for on that game,
    committed and answered. *)
Lemma serve_asked r db gid op stored :
  asked r = Some (gid, op) →
  game_table db !! gid = Some stored →
  Forall (λ i, i ∈ player_table db) (named op) →
  App.serve r db = App.respond gid db (perform op (App.engine_on db stored)).
Proof.
  intros Hr Hg Hn.
  destruct r as [|g|g p|g p|g p|g p|g p|g]; cbn [asked] in Hr; try discriminate;
    cbn [App.serve];
    unfold App.record_shot, App.record_steal, App.record_bunt, App.record_knock,
      App.snapshot.
  - destruct (App.truthy (App.shot_outcome p)) as [outcome|]; [|discriminate].
    cbn in Hr. injection Hr as -> <-. cbn [named perform] in *.
    destruct (named_known _ _ _ Hn) as [-> ->].
    rewrite (load_game_found _ _ _ Hg). cbn zeta.
    rewrite record_shot_resolved. reflexivity.
  - destruct (App.truthy (App.play_outcome p)) as [outcome|]; [|discriminate].
    cbn in Hr. injection Hr as -> <-. cbn [named perform] in *.
    destruct (named_known _ _ _ Hn) as [-> ->].
    rewrite (load_game_found _ _ _ Hg). cbn zeta.
    rewrite record_steal_resolved. reflexivity.
  - destruct (App.truthy (App.play_outcome p)) as [outcome|]; [|discriminate].
    cbn in Hr. injection Hr as -> <-. cbn [named perform] in *.
    destruct (named_known _ _ _ Hn) as [-> ->].
    rewrite (load_game_found _ _ _ Hg). cbn zeta.
    rewrite record_bunt_resolved. reflexivity.
  - injection Hr as -> <-. rewrite (load_game_found _ _ _ Hg). reflexivity.
  - injection Hr as -> <-. rewrite (load_game_found _ _ _ Hg). reflexivity.
Qed.



(** X22: reading and failing to find write nothing.  A request that only
    reads (next id, game, snapshot) leaves the database as it was; so does a
    request to record a play that comes without an outcome; and so does any
    request other than a roles update that is answered 404. *)
Theorem only_engine_calls_write r db :
  ¬ patches r →
  reads r ∨ asked r = None ∨ App.status_code (App.serve r db).2 = 404 →
  (App.serve r db).1 = db.
Proof.
  intros Hp H.
  destruct r as [|g|g p|g p|g p|g p|g p|g]; cbn [App.serve reads patches asked] in *;
    unfold App.next_game_id, App.get_game, App.record_shot, App.record_steal,
      App.record_bunt, App.record_knock, App.snapshot in *.
  - reflexivity.
  - destruct (App._load_game db g); reflexivity.
  - contradiction.
  - destruct (App.truthy (App.shot_outcome p)) as [outcome|]; [|reflexivity].
    destruct (App._load_game db g) as [stored|]; [|reflexivity].
    cbn zeta in *.
    destruct (App._load_player db (App.shooter_id p)); [|reflexivity].
    destruct (App._load_player db (App.catcher_id p)); [|reflexivity].
    rewrite respond_run in *. cbn [fst snd] in *.
    destruct H as [[]|[H|H]]; [discriminate H|].
    destruct (record_shot _ _ _ _).2 as [?|[?]]; discriminate H.
  - destruct (App.truthy (App.play_outcome p)) as [outcome|]; [|reflexivity].
    destruct (App._load_game db g) as [stored|]; [|reflexivity].
    cbn zeta in *.
    destruct (App._load_player db (App.offense_id p)); [|reflexivity].
    destruct (App._load_player db (App.defense_id p)); [|reflexivity].
    rewrite respond_run in *. cbn [fst snd] in *.
    destruct H as [[]|[H|H]]; [discriminate H|].
    destruct (record_steal _ _ _ _).2 as [?|[?]]; discriminate H.
  - destruct (App.truthy (App.play_outcome p)) as [outcome|]; [|reflexivity].
    destruct (App._load_game db g) as [stored|]; [|reflexivity].
    cbn zeta in *.
    destruct (App._load_player db (App.offense_id p)); [|reflexivity].
    destruct (App._load_player db (App.defense_id p)); [|reflexivity].
    rewrite respond_run in *. cbn [fst snd] in *.
    destruct H as [[]|[H|H]]; [discriminate H|].
    destruct (record_bunt _ _ _ _).2 as [?|[?]]; discriminate H.
  - destruct (App._load_game db g) as [stored|]; [|reflexivity].
    rewrite respond_run in *. cbn [fst snd] in *.
    destruct H as [[]|[H|H]]; [discriminate H|].
    destruct (record_knock _ _ _ _).2 as [?|[?]]; discriminate H.
  - destruct (App._load_game db g) as [stored|] eqn:Hg; [|reflexivity].
    unfold App._load_game in Hg.
    destruct (game_table db !! g) as [stored'|] eqn:Hl; [|discriminate].
    injection Hg as ->.
    change (export_snapshot (App.engine_on db stored))
      with (App.engine_on db stored, Ok (from_game (game (App.engine_on db stored)))).
    cbv beta iota. cbn [fst]. rewrite rows_of_engine_on. apply commit_same, Hl.
Qed.

Lemma only_engine_calls_write_witness :
  let r := App.PostSteal 1 {| App.play_outcome := Some "";
                              App.offense_id := None;
                              App.defense_id := Some 9 |} in
  ¬ patches r ∧ asked r = None ∧ (App.serve r clubhouse).1 = clubhouse.
Proof.
  intros r.
  assert (Hp : ¬ patches r) by (intros []).
  assert (Ha : asked r = None) by reflexivity.
  split; [exact Hp|]. split; [exact Ha|].
  exact (only_engine_calls_write r clubhouse Hp (or_intror (or_introl Ha))).
Defined.

(** X23: a play asked for without the players to make it is answered 400,
    and committed.  When a request to record goes to the engine, about a
    stored game and naming only players that exist, and a participant is
    missing, the answer is 400 with the message of the missing participant;
    nothing is added to the rows or to the log of the game; and a game that
    was [scheduled] is stored as [in_progress], so that the database is not
    what it was before the request. *)
Theorem unassigned_play_is_committed r db gid op stored :
  asked r = Some (gid, op) →
  game_table db !! gid = Some stored →
  Forall (λ i, i ∈ player_table db) (named op) →
  lacks_participant op (App.engine_on db stored) →
  status (game_row stored) = GameStatus.scheduled →
  App.serve r db
  = (App.commit gid
       (with_row (set_status GameStatus.in_progress (game_row stored)) stored) db,
     App.jsonify_with
       (App.error "Active players must be assigned before recording events.") 400) ∧
  (App.serve r db).1 ≠ db.
Proof.
  intros Hr Hg Hn Hl Hs.
  assert (E : App.serve r db
    = (App.commit gid
         (with_row (set_status GameStatus.in_progress (game_row stored)) stored) db,
       App.jsonify_with
         (App.error "Active players must be assigned before recording events.") 400)).
  { rewrite (serve_asked r db gid op stored Hr Hg Hn).
    rewrite (perform_absent op _ Hl). cbn [App.respond MissingParticipant].
    unfold App.rows_of, with_row.
    rewrite started_game, started_session. cbn [App.engine_on game session stats events].
    rewrite Hs. reflexivity. }
  split; [exact E|].
  rewrite E. cbn [fst]. intros Hdb.
  assert (Hl' : game_table
                  (App.commit gid
                     (with_row (set_status GameStatus.in_progress (game_row stored))
                        stored) db) !! gid = Some stored)
    by (rewrite Hdb; exact Hg).
  cbn [App.commit game_table] in Hl'. rewrite lookup_insert_eq in Hl'.
  injection Hl' as Hl'.
  apply (f_equal (λ s, status (game_row s))) in Hl'.
  unfold with_row in Hl'. cbn in Hl'. rewrite Hs in Hl'. discriminate.
Qed.

Lemma unassigned_play_is_committed_witness :
  let stored := {| game_row := game unassigned; stats_rows := ∅; event_rows := [] |} in
  let db := {| player_table := {[ 1; 2; 3; 4 ]}; game_table := {[ 7 := stored ]} |} in
  let r := App.PostKnock 7 {| App.first := 1; App.second := 0; App.third := 0 |} in
  App.status_code (App.serve r db).2 = 400 ∧
  (status ∘ game_row <$> game_table (App.serve r db).1 !! 7)
  = Some GameStatus.in_progress.
Proof.
  intros stored db r.
  assert (Hr : asked r = Some (7, RecordKnock 1 0 0)) by reflexivity.
  assert (Hg : game_table db !! 7 = Some stored) by (vm_compute; reflexivity).
  assert (Hn : Forall (λ i, i ∈ player_table db) (named (RecordKnock 1 0 0)))
    by constructor.
  assert (Hl : lacks_participant (RecordKnock 1 0 0) (App.engine_on db stored))
    by (left; reflexivity).
  assert (Hs : status (game_row stored) = GameStatus.scheduled) by reflexivity.
  destruct (unassigned_play_is_committed r db 7 _ stored Hr Hg Hn Hl Hs) as [E _].
  rewrite E. split; [reflexivity|]. vm_compute. reflexivity.
Defined.

(** ** Updating the roles *)

Lemma unknown_empty (payload : App.RolesPayload) :
  list_to_set payload.*1 ∖ App.allowed = (∅ : gset string) ↔ keys_allowed payload.
Proof.
  unfold keys_allowed. rewrite Forall_forall. split.
  - intros H [k v] Hin. cbn.
    destruct (decide (k ∈ App.allowed)) as [|Hk]; [assumption|].
    exfalso. apply (not_elem_of_empty (C := gset string) k). rewrite <- H.
    apply elem_of_difference. split; [|exact Hk].
    apply elem_of_list_to_set, list_elem_of_fmap. exists (k, v). split; [reflexivity|exact Hin].
  - intros H. apply elem_of_equiv_empty_L. intros k Hk.
    apply elem_of_difference in Hk as [Hk Hn].
    apply elem_of_list_to_set, list_elem_of_fmap in Hk as ([k' v] & -> & Hin).
    apply Hn, (H _ Hin).
Qed.





Lemma getattr_setattr r field value g :
  getattr_id r (App.setattr field value g)
  = if String.eqb field (role_column r) then value else getattr_id r g.
Proof.
  unfold App.setattr. destruct g, r; cbn [role_column];
    repeat match goal with
    | |- context [String.eqb field ?s] =>
        destruct (String.eqb_spec field s) as [->|?]
    end;
    vm_compute; reflexivity.
Qed.

Lemma setattr_roles field value g :
  ∃ a b c d,
    App.setattr field value g
    = set_offensive_shooter_id a
        (set_offensive_drinker_id b
           (set_defensive_catcher_id c (set_defensive_drinker_id d g))).
Proof.
  exists (offensive_shooter_id (App.setattr field value g)),
    (offensive_drinker_id (App.setattr field value g)),
    (defensive_catcher_id (App.setattr field value g)),
    (defensive_drinker_id (App.setattr field value g)).
  unfold App.setattr. destruct g.
  repeat match goal with
  | |- context [String.eqb field ?s] => destruct (String.eqb field s)
  end; reflexivity.
Qed.

Lemma as_dict_cons k v (rest : App.RolesPayload) f :
  as_dict ((k, v) :: rest) !! f
  = match as_dict rest !! f with
    | Some x => Some x
    | None => if String.eqb k f then Some v else None
    end.
Proof.
  unfold as_dict. rewrite reverse_cons, list_to_map_app, lookup_union.
  destruct (list_to_map (reverse rest) !! f) as [x|].
  - destruct (list_to_map [(k, v)] !! f); reflexivity.
  - cbn [list_to_map foldr uncurry fst snd].
    destruct (String.eqb_spec k f) as [->|Hne].
    + rewrite lookup_insert_eq. reflexivity.
    + rewrite lookup_insert_ne, lookup_empty by exact Hne. reflexivity.
Qed.

Lemma assign_items_all db payload g :
  ids_known db payload →
  ∃ g', App.assign_items db payload g = (g', App.Found ()) ∧
    (∀ r, getattr_id r g'
          = default (getattr_id r g) (as_dict payload !! role_column r)) ∧
    (∃ a b c d,
       g' = set_offensive_shooter_id a
              (set_offensive_drinker_id b
                 (set_defensive_catcher_id c (set_defensive_drinker_id d g)))).
Proof.
  unfold ids_known. revert g.
  induction payload as [|[k v] rest IH]; intros g H.
  - exists g. split; [reflexivity|]. split; [intros r; reflexivity|].
    exists (offensive_shooter_id g), (offensive_drinker_id g),
      (defensive_catcher_id g), (defensive_drinker_id g).
    destruct g. reflexivity.
  - apply Forall_cons in H as [Hv H]. cbn in Hv.
    destruct (IH (App.setattr k v g) H) as (g' & E & Hr & a & b & c & d & Hg).
    exists g'. split; [|split].
    + cbn [App.assign_items]. rewrite load_player_known; [exact E|].
      destruct v as [i|]; cbn; [|constructor].
      constructor; [apply Hv; reflexivity|constructor].
    + intros r. rewrite Hr, as_dict_cons, getattr_setattr.
      destruct (as_dict rest !! role_column r); [reflexivity|].
      destruct (String.eqb k (role_column r)); reflexivity.
    + destruct (setattr_roles k v g) as (a' & b' & c' & d' & Hs).
      rewrite Hg, Hs. exists a, b, c, d. destruct g. reflexivity.
Qed.



(** X25: a roles update that goes through.  With a body that names only
    role columns and gives only ids of players, on a game that is stored, the
    answer is 200 with the game as it is then stored; every slot the body
    names holds what the body gives for it (the later item when a key comes
    twice), every other slot holds what it held, and nothing but the four
    slots of the game row is written: the other columns, the statistics and
    the log stay. *)
Theorem roles_update_sets_slots gid stored db payload :
  game_table db !! gid = Some stored →
  keys_allowed payload →
  ids_known db payload →
  ∃ g',
    App.serve (App.PatchRoles gid payload) db
    = (App.commit gid (with_row g' stored) db, App.jsonify (App.game_dump g')) ∧
    (∀ r, getattr_id r g'
          = default (getattr_id r (game_row stored))
              (as_dict payload !! role_column r)) ∧
    (∃ a b c d,
       g' = set_offensive_shooter_id a
              (set_offensive_drinker_id b
                 (set_defensive_catcher_id c
                    (set_defensive_drinker_id d (game_row stored))))).
Proof.
  intros Hg Hk Hi.
  destruct (assign_items_all db payload (game_row stored) Hi) as (g' & E & Hr & Hs).
  exists g'. split; [|split; assumption].
  cbn [App.serve]. unfold App.update_roles. cbv zeta.
  rewrite (proj2 (unknown_empty _) Hk).
  destruct (decide (∅ = ∅)) as [_|Hne]; [|contradiction].
  rewrite (load_game_found _ _ _ Hg), E. reflexivity.
Qed.

Lemma roles_update_sets_slots_witness :
  let body := [("defensive_drinker_id", Some 1); ("offensive_shooter_id", None);
               ("defensive_drinker_id", Some 3)] in
  (role_ids ∘ game_row <$> game_table (App.serve (App.PatchRoles 1 body) clubhouse).1 !! 1)
  = Some [None; Some 2; Some 3; Some 3] ∧
  App.status_code (App.serve (App.PatchRoles 1 body) clubhouse).2 = 200.
Proof.
  intros body.
  assert (Hg : game_table clubhouse !! 1
               = Some {| game_row := sandlot_game; stats_rows := ∅; event_rows := [] |})
    by (vm_compute; reflexivity).
  assert (Hk : keys_allowed body).
  { repeat (apply Forall_cons; split; [vm_compute; reflexivity|]). constructor. }
  assert (Hi : ids_known clubhouse body).
  { repeat (apply Forall_cons; split;
            [intros i Hi; try discriminate Hi; injection Hi as <-;
             vm_compute; reflexivity|]).
    constructor. }
  destruct (roles_update_sets_slots 1 _ clubhouse body Hg Hk Hi) as (g' & E & _).
  split; [vm_compute; reflexivity|]. rewrite E. reflexivity.
Defined.


(** ** The next id *)

Lemma last_id_bounds (l : list Z) :
  match foldr (λ k acc, Some (from_option (Z.max k) k acc)) None l with
  | Some m => m ∈ l ∧ ∀ k, k ∈ l → k <= m
  | None => l = []
  end.
Proof.
  induction l as [|k l IH]; [reflexivity|]. cbn [foldr].
  destruct (foldr _ None l) as [m|]; cbn.
  - destruct IH as [Hm Hle]. split.
    + destruct (Z.max_spec k m) as [[_ ->]|[_ ->]];
        [apply list_elem_of_further, Hm|apply list_elem_of_here].
    + intros j Hj. apply elem_of_cons in Hj as [->|Hj]; [lia|].
      specialize (Hle j Hj). lia.
  - subst l. split; [apply list_elem_of_here|].
    intros j Hj. apply elem_of_cons in Hj as [->|Hj]; [lia|].
    apply elem_of_nil in Hj. destruct Hj.
Qed.

(** X27: the next id is fresh.  The id the route gives is above the id of
    every stored game, so that no game is stored under it, and it is 1 when
    no game is stored; the route writes nothing. *)
Theorem next_game_id_is_fresh db :
  ∃ n,
    App.serve App.GetNextId db = (db, App.jsonify (App.next_id n)) ∧
    (∀ k, is_Some (game_table db !! k) → k < n) ∧
    game_table db !! n = None ∧
    (game_table db = ∅ → n = 1).
Proof.
  cbn [App.serve]. unfold App.next_game_id, App.last_id.
  pose proof (last_id_bounds (elements (dom (game_table db)))) as H.
  destruct (foldr _ None (elements (dom (game_table db)))) as [m|]; cbn [default].
  - destruct H as [Hm Hle].
    assert (Hlt : ∀ k, is_Some (game_table db !! k) → k < m + 1).
    { intros k Hk. apply elem_of_dom, elem_of_elements in Hk.
      specialize (Hle k Hk). lia. }
    exists (m + 1). split; [reflexivity|]. split; [exact Hlt|]. split.
    + destruct (game_table db !! (m + 1)) eqn:E; [|reflexivity].
      assert (m + 1 < m + 1) by (apply Hlt; rewrite E; eauto). lia.
    + intros He. apply elem_of_elements, elem_of_dom in Hm as [x Hx].
      rewrite He, lookup_empty in Hx. discriminate.
  - exists 1. split; [reflexivity|].
    assert (He : ∀ k, game_table db !! k = None).
    { intros k. destruct (game_table db !! k) eqn:E; [|reflexivity].
      assert (Hk : k ∈ elements (dom (game_table db)))
        by (apply elem_of_elements, elem_of_dom; rewrite E; eauto).
      rewrite H in Hk. apply elem_of_nil in Hk. destruct Hk. }
    split; [|split; [apply He|reflexivity]].
    intros k [x Hx]. rewrite He in Hx. discriminate.
Qed.
